(** * unifi-access-hubitat-middleware: a shallow embedding and its properties

    The development follows the Go sources:
    - [internal/uac/events.go]  : webhook signature verification
    - [pkg/utils]               : [StringSlicesEqual]
    - [internal/hubitat] client : [assertDeviceState] and its wrappers
    - [internal/uac] client     : [AssertToggleDoorUnlock], [AssertUnlockDoor],
                                  [AssertLockDoor]
    - [cmd]                     : [handleUacEvent], [pollUacStates]

    Go strings are byte sequences and are modelled by [string]; [[]byte] is
    [list byte]; Go maps are [gmap]s; outbound requests are recorded in a
    trace of [Call]s. *)

From Stdlib Require Import ZArith Lia List.
From Stdlib.Strings Require Import Ascii String Byte.
From stdpp Require Import gmap strings list fin_maps.

Local Open Scope string_scope.
Local Open Scope list_scope.

(** ** Go standard library: crypto/sha256 and crypto/hmac

    The repository calls [hmac.New(sha256.New, key)]; SHA-256 is written out
    after FIPS 180-4 on 32-bit words held in [Z], HMAC after RFC 2104. *)

Module Sha256.
Local Open Scope Z_scope.

Definition w32 (x : Z) : Z := x mod 2^32.
Definition add32 (a b : Z) : Z := w32 (a + b).
Definition rotr (n x : Z) : Z := w32 (Z.lor (Z.shiftr x n) (Z.shiftl x (32 - n))).
Definition shr (n x : Z) : Z := Z.shiftr x n.
Definition not32 (x : Z) : Z := Z.lxor x 0xffffffff.

Definition Ch (x y z : Z) : Z := Z.lxor (Z.land x y) (Z.land (not32 x) z).
Definition Maj (x y z : Z) : Z :=
  Z.lxor (Z.lxor (Z.land x y) (Z.land x z)) (Z.land y z).
Definition bsig0 (x : Z) : Z := Z.lxor (Z.lxor (rotr 2 x) (rotr 13 x)) (rotr 22 x).
Definition bsig1 (x : Z) : Z := Z.lxor (Z.lxor (rotr 6 x) (rotr 11 x)) (rotr 25 x).
Definition ssig0 (x : Z) : Z := Z.lxor (Z.lxor (rotr 7 x) (rotr 18 x)) (shr 3 x).
Definition ssig1 (x : Z) : Z := Z.lxor (Z.lxor (rotr 17 x) (rotr 19 x)) (shr 10 x).

(** The constants are the fractional parts of roots of the first primes
    (FIPS 180-4, 4.2.2 and 5.3.3); they are computed rather than tabulated. *)
Definition is_prime (n : nat) : bool :=
  (2 <=? n)%nat && forallb (fun d => negb (n mod d =? 0)%nat) (seq 2 (n - 2)).

Definition primes (count : nat) : list Z :=
  map Z.of_nat (firstn count (List.filter is_prime (seq 2 310))).

(** The integer cube root by bisection on its [bits] low bits. *)
Fixpoint cbrt_bits (bits : nat) (n r : Z) : Z :=
  match bits with
  | O => r
  | S b =>
      let r' := r + 2 ^ Z.of_nat b in
      if r' * r' * r' <=? n then cbrt_bits b n r' else cbrt_bits b n r
  end.

Definition frac_cbrt (p : Z) : Z := w32 (cbrt_bits 40 (p * 2 ^ 96) 0).
Definition frac_sqrt (p : Z) : Z := w32 (Z.sqrt (p * 2 ^ 64)).

(** The round constants: cube roots of the first 64 primes. *)
Definition K : list Z := Eval vm_compute in map frac_cbrt (primes 64).

(** The eight working variables / the chaining value. *)
Record state := St { sa : Z; sb : Z; sc : Z; sd : Z; se : Z; sf : Z; sg : Z; sh : Z }.

(** The initial hash value: square roots of the first 8 primes. *)
Definition H0 : state :=
  Eval vm_compute in
    match map frac_sqrt (primes 8) with
    | [a; b; c; d; e; f; g; h] => St a b c d e f g h
    | _ => St 0 0 0 0 0 0 0 0
    end.

(** Big-endian 32-bit words of a block of bytes. *)
Fixpoint words (bs : list Z) : list Z :=
  match bs with
  | b0 :: b1 :: b2 :: b3 :: rest =>
      (Z.shiftl b0 24 + Z.shiftl b1 16 + Z.shiftl b2 8 + b3) :: words rest
  | _ => []
  end.

(** Message schedule: [w] holds W_0 .. W_(t-1); [n] more words are added. *)
Fixpoint schedule (n : nat) (w : list Z) : list Z :=
  match n with
  | O => w
  | S n' =>
      let t := length w in
      let x := add32 (add32 (ssig1 (nth (t - 2) w 0)) (nth (t - 7) w 0))
                     (add32 (ssig0 (nth (t - 15) w 0)) (nth (t - 16) w 0)) in
      schedule n' (w ++ [x])
  end.

Definition round (s : state) (kw : Z * Z) : state :=
  let t1 := add32 (add32 (add32 (sh s) (bsig1 (se s))) (Ch (se s) (sf s) (sg s)))
                  (add32 (fst kw) (snd kw)) in
  let t2 := add32 (bsig0 (sa s)) (Maj (sa s) (sb s) (sc s)) in
  St (add32 t1 t2) (sa s) (sb s) (sc s) (add32 (sd s) t1) (se s) (sf s) (sg s).

Definition compress (h : state) (block : list Z) : state :=
  let w := schedule 48 (words block) in
  let s := fold_left round (combine K w) h in
  St (add32 (sa h) (sa s)) (add32 (sb h) (sb s)) (add32 (sc h) (sc s))
     (add32 (sd h) (sd s)) (add32 (se h) (se s)) (add32 (sf h) (sf s))
     (add32 (sg h) (sg s)) (add32 (sh h) (sh s)).

(** Big-endian bytes of the low [n] bytes of [x]. *)
Fixpoint be_bytes (n : nat) (x : Z) : list Z :=
  match n with
  | O => []
  | S n' => (Z.shiftr x (8 * Z.of_nat n')) mod 256 :: be_bytes n' x
  end.

Definition pad (msg : list Z) : list Z :=
  let len := Z.of_nat (length msg) in
  let zeros := Z.to_nat ((55 - len) mod 64) in
  msg ++ [0x80] ++ repeat 0 zeros ++ be_bytes 8 (8 * len).

Fixpoint blocks (fuel : nat) (h : state) (bs : list Z) : state :=
  match fuel with
  | O => h
  | S fuel' =>
      match bs with
      | [] => h
      | _ => blocks fuel' (compress h (firstn 64 bs)) (skipn 64 bs)
      end
  end.

Definition digest_bytes (h : state) : list Z :=
  be_bytes 4 (sa h) ++ be_bytes 4 (sb h) ++ be_bytes 4 (sc h) ++ be_bytes 4 (sd h) ++
  be_bytes 4 (se h) ++ be_bytes 4 (sf h) ++ be_bytes 4 (sg h) ++ be_bytes 4 (sh h).

Definition sum256 (msg : list Z) : list Z :=
  let p := pad msg in digest_bytes (blocks (length p) H0 p).

End Sha256.

Module Hmac.
Local Open Scope Z_scope.

Definition blockSize : nat := 64.

(** Keys longer than the block size are hashed first; the key is then
    zero-padded to one block. *)
Definition block_key (key : list Z) : list Z :=
  let k := if (blockSize <? length key)%nat then Sha256.sum256 key else key in
  k ++ repeat 0 (blockSize - length k).

Definition sum (key msg : list Z) : list Z :=
  let k := block_key key in
  let ipad := map (Z.lxor 0x36) k in
  let opad := map (Z.lxor 0x5c) k in
  Sha256.sum256 (opad ++ Sha256.sum256 (ipad ++ msg)).

End Hmac.

(** ** Bytes and strings *)

Definition Z_of_byte (b : byte) : Z := Z.of_N (Byte.to_N b).
Definition byte_of_Z (z : Z) : byte := byte_of_ascii (ascii_of_N (Z.to_N z)).

Definition bytes_of_string (s : string) : list byte := list_byte_of_string s.

(** [hmac.New(sha256.New, key); mac.Write(msg); mac.Sum(nil)] *)
Definition hmac_sha256 (key msg : list byte) : list byte :=
  map byte_of_Z (Hmac.sum (map Z_of_byte key) (map Z_of_byte msg)).

(** ** Go standard library: encoding/hex, strconv, strings *)

Definition Z_of_ascii (c : ascii) : Z := Z.of_N (N_of_ascii c).

Definition hextable : list ascii :=
  ["0"; "1"; "2"; "3"; "4"; "5"; "6"; "7"; "8"; "9"; "a"; "b"; "c"; "d"; "e"; "f"]%char.

Definition hex_char (n : N) : ascii := nth (N.to_nat n) hextable "0"%char.

(** [hex.EncodeToString]: two lower-case digits per byte. *)
Fixpoint hex_EncodeToString (bs : list byte) : string :=
  match bs with
  | [] => ""
  | b :: rest =>
      String (hex_char (Byte.to_N b / 16))
        (String (hex_char (Byte.to_N b mod 16)) (hex_EncodeToString rest))
  end.

(** The entries of [reverseHexTable] that are at most 0x0f. *)
Definition fromHexChar (c : ascii) : option Z :=
  let n := Z_of_ascii c in
  if (48 <=? n)%Z && (n <=? 57)%Z then Some (n - 48)%Z
  else if (97 <=? n)%Z && (n <=? 102)%Z then Some (n - 97 + 10)%Z
  else if (65 <=? n)%Z && (n <=? 70)%Z then Some (n - 65 + 10)%Z
  else None.

(** [hex.DecodeString]; [None] stands for either of its errors
    ([InvalidByteError], [ErrLength]): the caller only tests [err != nil]. *)
Fixpoint hex_DecodeString (s : string) : option (list byte) :=
  match s with
  | EmptyString => Some []
  | String p EmptyString => None
  | String p (String q rest) =>
      match fromHexChar p, fromHexChar q with
      | Some a, Some b =>
          match hex_DecodeString rest with
          | Some bs => Some (byte_of_Z (Z.lor (Z.shiftl a 4) b) :: bs)
          | None => None
          end
      | _, _ => None
      end
  end.

Inductive NumError := ErrSyntax | ErrRange.

Definition maxUint64 : Z := 2^64 - 1.

(** The loop of [strconv.ParseUint(s, 10, 64)] over the bytes of [s],
    with [n] the value read so far. *)
Fixpoint parseUint_loop (s : string) (n : Z) : NumError + Z :=
  match s with
  | EmptyString => inr n
  | String c rest =>
      let x := Z_of_ascii c in
      if (48 <=? x)%Z && (x <=? 57)%Z then
        let d := (x - 48)%Z in
        if (maxUint64 / 10 + 1 <=? n)%Z then inl ErrRange
        else
          let n1 := (n * 10 + d)%Z in
          if (maxUint64 <? n1)%Z then inl ErrRange else parseUint_loop rest n1
      else inl ErrSyntax
  end.

Definition ParseUint (s : string) : NumError + Z :=
  match s with
  | EmptyString => inl ErrSyntax
  | _ => parseUint_loop s 0%Z
  end.

(** [strconv.ParseInt(s, 10, 64)]. *)
Definition ParseInt (s : string) : NumError + Z :=
  match s with
  | EmptyString => inl ErrSyntax
  | String c rest =>
      let neg := Ascii.eqb c "-" in
      let s1 := if Ascii.eqb c "+" || neg then rest else s in
      match ParseUint s1 with
      | inl ErrSyntax => inl ErrSyntax
      | inl ErrRange => inl ErrRange
      | inr un =>
          let cutoff := (2^63)%Z in
          if negb neg && (cutoff <=? un)%Z then inl ErrRange
          else if neg && (cutoff <? un)%Z then inl ErrRange
          else inr (if neg then (- un)%Z else un)
      end
  end.

Definition digit_char (d : Z) : ascii := nth (Z.to_nat d) hextable "0"%char.

(** Decimal digits of a non-negative number, most significant first, put in
    front of [acc]. *)
Fixpoint format_uint (fuel : nat) (n : Z) (acc : string) : string :=
  match fuel with
  | O => acc
  | S fuel' =>
      let acc' := String (digit_char (n mod 10)) acc in
      if (n <? 10)%Z then acc' else format_uint fuel' (n / 10) acc'
  end.

(** [fmt.Sprintf("%d", x)] for an [int64] [x] (at most 19 digits). *)
Definition formatInt (x : Z) : string :=
  if (x <? 0)%Z then String "-" (format_uint 20 (- x) "") else format_uint 20 x "".

(** [strings.Split(s, sep)] for a one-byte separator. *)
Fixpoint strings_Split (sep : ascii) (s : string) : list string :=
  match s with
  | EmptyString => [EmptyString]
  | String c rest =>
      if Ascii.eqb c sep then EmptyString :: strings_Split sep rest
      else match strings_Split sep rest with
           | h :: t => String c h :: t
           | [] => [String c EmptyString]
           end
  end.

(** ** internal/uac/events.go: signature verification *)

Inductive SigError := ErrInvalidHeader | ErrNoValidSignature | ErrNotSigned.

Definition signingVersion : string := "v1".

(** [timestamp] is a [time.Time] built by [time.Unix(ts, 0)] and read only
    through [Unix()], so it is held as its Unix seconds. *)
Record signedHeader := SignedHeader { timestamp : Z; signature : list byte }.

(** [&signedHeader{}]: the zero [time.Time] is year 1, whose [Unix()] is
    -62135596800; the signature is nil. *)
Definition zero_signedHeader : signedHeader := SignedHeader (-62135596800) [].

(** The [for _, pair := range pairs] loop of [parseSignatureHeader]. *)
Fixpoint parsePairs (pairs : list string) (sh : signedHeader) : SigError + signedHeader :=
  match pairs with
  | [] => inr sh
  | kv :: rest =>
      match strings_Split "=" kv with
      | [k; v] =>
          if String.eqb k "t" then
            match ParseInt v with
            | inl _ => inl ErrInvalidHeader
            | inr ts => parsePairs rest (SignedHeader ts (signature sh))
            end
          else if String.eqb k signingVersion then
            match hex_DecodeString v with
            | None => parsePairs rest sh
            | Some sig => parsePairs rest (SignedHeader (timestamp sh) sig)
            end
          else parsePairs rest sh
      | _ => inl ErrInvalidHeader
      end
  end.

(** Go returns the header together with the error; callers drop the header
    when the error is not nil, so the model returns one or the other. *)
Definition parseSignatureHeader (header : string) : SigError + signedHeader :=
  if String.eqb header "" then inl ErrNotSigned
  else
    match parsePairs (strings_Split "," header) zero_signedHeader with
    | inl e => inl e
    | inr sh =>
        if (length (signature sh) =? 0)%nat then inl ErrNoValidSignature else inr sh
    end.

Definition computeSignature (t : Z) (payload : list byte) (secret : string) : list byte :=
  hmac_sha256 (bytes_of_string secret)
    (bytes_of_string (formatInt t) ++ bytes_of_string "." ++ payload).

(** [hmac.Equal]: equal lengths and equal bytes. *)
Fixpoint hmac_Equal (a b : list byte) : bool :=
  match a, b with
  | [], [] => true
  | x :: a', y :: b' => Byte.eqb x y && hmac_Equal a' b'
  | _, _ => false
  end.

(** [None] is Go's [nil] error. *)
Definition validatePayload (payload : list byte) (sigHeader secret : string) : option SigError :=
  match parseSignatureHeader sigHeader with
  | inl err => Some err
  | inr header =>
      let expected := computeSignature (timestamp header) payload secret in
      if hmac_Equal expected (signature header) then None else Some ErrNoValidSignature
  end.

(** ** pkg/utils *)

Module utils.

(** [counts[val]] on a [map[string]int]: a missing key reads as 0.  The
    counts stay between [-1] and [len(a)], so Go's [int] never wraps and is
    held as [Z]. *)
Definition count_of (counts : gmap string Z) (val : string) : Z :=
  default 0%Z (counts !! val).

(** [for _, val := range a { counts[val]++ }] *)
Definition count_up (counts : gmap string Z) (val : string) : gmap string Z :=
  <[val := (count_of counts val + 1)%Z]> counts.

(** [for _, val := range b { counts[val]--; if counts[val] < 0 { return false } }] *)
Fixpoint count_down (b : list string) (counts : gmap string Z) : bool :=
  match b with
  | [] => true
  | val :: rest =>
      let counts' := <[val := (count_of counts val - 1)%Z]> counts in
      if (count_of counts' val <? 0)%Z then false else count_down rest counts'
  end.

Definition StringSlicesEqual (a b : list string) : bool :=
  if negb (length a =? length b)%nat then false
  else count_down b (foldl count_up ∅ a).

(** [for key, valA := range a { if valB, ok := b[key]; !ok || valA != valB
    { return false } }]: the loop visits the entries of [a] in an unspecified
    order; the entries are taken in the order of [map_to_list]. *)
Definition same_entry (b : gmap string string) (entry : string * string) : bool :=
  match b !! entry.1 with
  | Some valB => String.eqb entry.2 valB
  | None => false
  end.

Definition StringMapsEqual (a b : gmap string string) : bool :=
  if negb (size a =? size b)%nat then false
  else forallb (same_entry b) (map_to_list a).

End utils.

(** ** Outbound effects

    Every request to the hub or to the controller, every sleep and every
    log line is appended to a trace; a computation returns its value and the
    trace it produced. *)

Inductive Level := LevelInfo | LevelWarn | LevelError.

Inductive Call :=
| HubGetDeviceInfo (deviceID : string)
| HubSendDeviceCommand (deviceID command secondaryValue : string)
| UacFetchAllDoors
| UacFetchDoor (doorID : string)
| UacPutUnlock (doorID : string)
| UacGetDoorLockRule (doorID : string)
| UacPutDoorLockRule (doorID ruleType : string)
| Sleep (milliseconds : Z)
| Log (level : Level) (msg : string).

Definition M (A : Type) : Type := A * list Call.

Definition ret {A} (a : A) : M A := (a, []).
Definition bind {A B} (m : M A) (f : A → M B) : M B :=
  let '(a, t1) := m in let '(b, t2) := f a in (b, t1 ++ t2).
Definition call (c : Call) : M unit := (tt, [c]).
Definition logf (l : Level) (msg : string) : M unit := call (Log l msg).

Definition value {A} (m : M A) : A := fst m.
Definition trace {A} (m : M A) : list Call := snd m.

Declare Scope m_scope.
Delimit Scope m_scope with M.
Notation "'do' x <- m ; k" := (bind m (fun x => k))
  (at level 10, x name, m at level 100, k at level 200) : m_scope.
Notation "m >> k" := (bind m (fun _ => k))
  (at level 100, k at level 200, right associativity) : m_scope.
Local Open Scope m_scope.

(** What the remote side answers to one request: the transport fails, the
    status is not 200, the body does not decode, or a decoded body. *)
Inductive Reply (T : Type) :=
| TransportError
| BadStatus (code : Z)
| DecodeError
| Body (v : T).
Arguments TransportError {T}.
Arguments BadStatus {T} code.
Arguments DecodeError {T}.
Arguments Body {T} v.

Definition is_mutating (c : Call) : bool :=
  match c with
  | HubSendDeviceCommand _ _ _ | UacPutUnlock _ | UacPutDoorLockRule _ _ => true
  | _ => false
  end.

Definition is_hub_call (c : Call) : bool :=
  match c with
  | HubGetDeviceInfo _ | HubSendDeviceCommand _ _ _ => true
  | _ => false
  end.

Definition is_hub_command (c : Call) : bool :=
  match c with
  | HubSendDeviceCommand _ _ _ => true
  | _ => false
  end.

Definition mutations (t : list Call) : list Call := List.filter is_mutating t.
Definition hub_calls (t : list Call) : list Call := List.filter is_hub_call t.
Definition hub_commands (t : list Call) : list Call := List.filter is_hub_command t.

(** ** cmd/config *)

Module config.

(** [HubitatLockID] is tested against [nil] and dereferenced by its users
    ([getDoorByHubitatID], [pollUacStates]), so it is an optional string. *)
Record Door := {
  UacID : string;
  HubitatContactID : string;
  HubitatLockID : option string;
  HubitatSwitchID : string
}.

Record Config := { Doors : list Door }.


(** The [server] block: the public base URL and the shared token. *)
Record Server := { BaseURL : string; AuthToken : string }.

End config.

(** ** internal/hubitat *)

Module hubitat.

(** A decoded JSON value held in a Go [any]. *)
#[local] Set Warnings "-register-all".
Inductive any :=
| Nil
| Bool (b : bool)
| Number (literal : string)
| Str (s : string)
| Array (l : list any)
| Object (fields : list (string * any)).

(** [v == s] for [v] of type [any] and [s] a string: true only when the
    dynamic type of [v] is string and the values agree. *)
Definition any_eq_string (v : any) (s : string) : bool :=
  match v with
  | Str s' => String.eqb s' s
  | _ => false
  end.

Record DeviceInfo := {
  ID : string;
  Type_ : string;
  Attributes : list (gmap string any);
  Capabilities : list any;
  Commands : list string
}.

(** [attr[key]]: a missing key reads as the nil interface. *)
Definition index (attr : gmap string any) (key : string) : any :=
  default Nil (attr !! key).

Inductive error :=
| ErrTransport
| ErrStatus (code : Z)
| ErrDecode
| ErrGetDeviceInfo (deviceID : string) (cause : error)
| ErrNoCapability (deviceID capability : string)
| ErrNoCommand (deviceID command : string)
| ErrSendCommand (command deviceID : string) (cause : error).

(** The capability and command checks fail with these. *)
Definition is_configuration_error (e : error) : bool :=
  match e with
  | ErrNoCapability _ _ | ErrNoCommand _ _ => true
  | _ => false
  end.

(** The hub as seen through the client: its answer to a device-info GET and
    to a command POST. *)
Record Client := {
  devices : string → Reply DeviceInfo;
  commands : string → string → string → Reply unit
}.

Definition hasCapability (deviceInfo : DeviceInfo) (capabilityName : string) : bool :=
  existsb (fun capability => any_eq_string capability capabilityName)
          (Capabilities deviceInfo).

Definition hasCommand (deviceInfo : DeviceInfo) (commandName : string) : bool :=
  existsb (fun command => String.eqb command commandName) (Commands deviceInfo).

(** [http.NewRequest] refuses a URL that does not parse (a device ID such
    as [50%]), and the source then returns before anything is sent.  [Reply]
    has no answer of its own for this: the request is filed as made and the
    failure as a transport failure, so for such an ID the trace bounds from
    above what goes out. *)
Definition GetDeviceInfo (c : Client) (deviceID : string) : M (error + DeviceInfo) :=
  call (HubGetDeviceInfo deviceID) >>
  ret match devices c deviceID with
      | TransportError => inl ErrTransport
      | BadStatus code => inl (ErrStatus code)
      | DecodeError => inl ErrDecode
      | Body info => inr info
      end.

(** The status check is [resp.StatusCode != http.StatusOK]; the body of a
    command response is not read. *)
Definition sendDeviceCommand (c : Client) (deviceID command secondaryValue : string)
  : M (option error) :=
  call (HubSendDeviceCommand deviceID command secondaryValue) >>
  ret match commands c deviceID command secondaryValue with
      | TransportError => Some ErrTransport
      | BadStatus code => Some (ErrStatus code)
      | DecodeError | Body _ => None
      end.

Definition in_desired_state (attributeName desiredValue : string) (attr : gmap string any) : bool :=
  any_eq_string (index attr "name") attributeName
  && any_eq_string (index attr "currentValue") desiredValue.

Definition assertDeviceState (c : Client)
    (deviceID capability command attributeName desiredValue : string) : M (option error) :=
  do r <- GetDeviceInfo c deviceID;
  match r with
  | inl err => ret (Some (ErrGetDeviceInfo deviceID err))
  | inr deviceInfo =>
      if negb (hasCapability deviceInfo capability) then
        ret (Some (ErrNoCapability deviceID capability))
      else if negb (hasCommand deviceInfo command) then
        ret (Some (ErrNoCommand deviceID command))
      else if existsb (in_desired_state attributeName desiredValue) (Attributes deviceInfo) then
        ret None
      else
        do r <- sendDeviceCommand c deviceID command "";
        match r with
        | Some err => ret (Some (ErrSendCommand command deviceID err))
        | None => ret None
        end
  end.

Definition AssertDoorContactOpened (c : Client) (doorID : string) : M (option error) :=
  assertDeviceState c doorID "ContactSensor" "open" "contact" "open".

Definition AssertDoorContactClosed (c : Client) (doorID : string) : M (option error) :=
  assertDeviceState c doorID "ContactSensor" "close" "contact" "close".

Definition AssertDoorLockUnlocked (c : Client) (doorID : string) : M (option error) :=
  assertDeviceState c doorID "Lock" "unlock" "lock" "unlocked".

Definition AssertDoorLockLocked (c : Client) (doorID : string) : M (option error) :=
  assertDeviceState c doorID "Lock" "lock" "lock" "locked".

Definition AssertDoorSwitchOn (c : Client) (doorID : string) : M (option error) :=
  assertDeviceState c doorID "Switch" "on" "switch" "on".

Definition AssertDoorSwitchOff (c : Client) (doorID : string) : M (option error) :=
  assertDeviceState c doorID "Switch" "off" "switch" "off".


(** [WebhookEvent]: the fields of its [Content] struct; [ContentType] is
    its [Type] field. *)
Record WebhookEvent := {
  Name : string;
  Value : string;
  DisplayName : string;
  DeviceID : string;
  DescriptionText : string;
  Unit : any;
  ContentType : string;
  Data : any
}.

(** What [ServeHTTP] reads of a request: the [authorization] query
    parameter and the outcome of [io.ReadAll(r.Body)] ([None] is its error). *)
Record Request := {
  query_authorization : string;
  request_body : option (list byte)
}.

Inductive ResponseBody := Forbidden | ReadFailed | InvalidEventJSON | OK.

(** The status written, the body written, and the event handed to the
    callback goroutine, if any. *)
Record Response := {
  status : Z;
  body : ResponseBody;
  dispatched : option WebhookEvent
}.

(** [WebhookHandler]; the callback and the wait group are represented by
    the [dispatched] field of the response. *)
Record WebhookHandler := { authToken : string }.

(** [unmarshal] is [json.Unmarshal(body, &event)], [None] being its error. *)
Definition ServeHTTP (unmarshal : list byte → option WebhookEvent)
    (h : WebhookHandler) (r : Request) : Response :=
  if negb (String.eqb (query_authorization r) (authToken h)) then
    {| status := 403; body := Forbidden; dispatched := None |}
  else
    match request_body r with
    | None => {| status := 400; body := ReadFailed; dispatched := None |}
    | Some body =>
        match unmarshal body with
        | None => {| status := 400; body := InvalidEventJSON; dispatched := None |}
        | Some event => {| status := 200; body := OK; dispatched := Some event |}
        end
    end.

End hubitat.

(** ** internal/uac *)

Module uac.

(** [Response[T]]: every controller answer is wrapped in code, msg, data. *)
Record Response (T : Type) := { Code : string; Msg : string; Data : T }.
Arguments Code {T} r.
Arguments Msg {T} r.
Arguments Data {T} r.

Record Door := {
  DoorLockRelayStatus : string;
  DoorPositionStatus : string;
  FloorID : string;
  FullName : string;
  ID : string;
  IsBindHub : bool;
  Name : string;
  Type_ : string
}.

(** [EndedTime] is a [float64] that no code path reads; it is left out. *)
Record DoorLockRule := { RuleType : string }.

Inductive error :=
| ErrTransport
| ErrStatus (code : Z)
| ErrDecode
| ErrApi (msg : string)
| ErrFetchDoor (cause : error).

(** The controller as seen through the client: its answer to each request. *)
Record Client := {
  all_doors : Reply (Response (list Door));
  door : string → Reply (Response Door);
  unlock : string → Reply (Response unit);
  lock_rule : string → Reply (Response DoorLockRule);
  set_lock_rule : string → string → Reply (Response unit)
}.

(** [doRequest], decoding, and the [apiResp.Code != "SUCCESS"] test that
    every call repeats. *)
Definition api_result {T} (r : Reply (Response T)) : error + T :=
  match r with
  | TransportError => inl ErrTransport
  | BadStatus code => inl (ErrStatus code)
  | DecodeError => inl ErrDecode
  | Body resp =>
      if negb (String.eqb (Code resp) "SUCCESS") then inl (ErrApi (Msg resp))
      else inr (Data resp)
  end.

Definition api_error {T} (r : Reply (Response T)) : option error :=
  match api_result r with
  | inl e => Some e
  | inr _ => None
  end.

Definition FetchAllDoors (c : Client) : M (error + list Door) :=
  call UacFetchAllDoors >> ret (api_result (all_doors c)).

(** As for the hub, [doRequest] returns before anything is sent when
    [http.NewRequest] refuses the URL made from the door ID; the request is
    filed as made and the failure as a transport failure. *)
Definition FetchDoor (c : Client) (doorID : string) : M (error + Door) :=
  call (UacFetchDoor doorID) >> ret (api_result (door c doorID)).

Definition AssertToggleDoorUnlock (c : Client) (doorID : string) : M (option error) :=
  do r <- FetchDoor c doorID;
  match r with
  | inl err => ret (Some (ErrFetchDoor err))
  | inr door =>
      if String.eqb (DoorLockRelayStatus door) "unlock" then ret None
      else call (UacPutUnlock doorID) >> ret (api_error (unlock c doorID))
  end.

Definition setDoorLockRule (c : Client) (doorID ruleType : string) : M (option error) :=
  call (UacPutDoorLockRule doorID ruleType) >>
  ret (api_error (set_lock_rule c doorID ruleType)).

(** The same path through [doRequest] as [FetchDoor]. *)
Definition GetDoorLockRule (c : Client) (doorID : string) : M (error + DoorLockRule) :=
  call (UacGetDoorLockRule doorID) >> ret (api_result (lock_rule c doorID)).

Definition AssertUnlockDoor (c : Client) (doorID : string) : M (option error) :=
  do r <- GetDoorLockRule c doorID;
  match r with
  | inl err => ret (Some err)
  | inr rule =>
      if String.eqb (RuleType rule) "keep_unlock" then ret None
      else setDoorLockRule c doorID "keep_unlock"
  end.

Definition AssertLockDoor (c : Client) (doorID : string) : M (option error) :=
  do r <- GetDoorLockRule c doorID;
  match r with
  | inl err => ret (Some err)
  | inr rule =>
      if String.eqb (RuleType rule) "" then ret None
      else setDoorLockRule c doorID "reset"
  end.

(** [WebhookEvent]; [EventData] is its [Data] field, the raw JSON of the
    [data] member. *)
Record WebhookEvent := {
  Event : string;
  EventObjectID : string;
  EventData : list byte
}.


(** [Webhook]; [WebhookID] and [WebhookName] are its [ID] and [Name]
    fields, [ID] and [Secret] being pointers that may be nil. *)
Record Webhook := {
  WebhookID : option string;
  Endpoint : string;
  WebhookName : string;
  Secret : option string;
  Events : list string;
  Headers : gmap string string
}.

(** The requests of the webhook-endpoint API, and the log lines of the
    code that uses it. *)
Inductive WebhookCall :=
| GetWebhookEndpoints
| PostWebhookEndpoint (webhook : Webhook)
| PutWebhookEndpoint (id : string) (webhook : Webhook)
| DeleteWebhookEndpointCall (id : string)
| WebhookLog (level : Level) (msg : string).

(** The controller's answers to the webhook-endpoint requests. *)
Record WebhookApi := {
  endpoints : Reply (Response (list Webhook));
  added : Webhook → Reply (Response Webhook);
  updated : string → Webhook → Reply (Response Webhook);
  deleted : string → Reply (Response unit)
}.

Definition FetchWebhookEndpoints (c : WebhookApi) : (error + list Webhook) * list WebhookCall :=
  (api_result (endpoints c), [GetWebhookEndpoints]).

Definition AddWebhookEndpoint (c : WebhookApi) (webhook : Webhook)
  : (error + Webhook) * list WebhookCall :=
  (api_result (added c webhook), [PostWebhookEndpoint webhook]).

Definition UpdateWebhookEndpoint (c : WebhookApi) (id : string) (webhook : Webhook)
  : (error + Webhook) * list WebhookCall :=
  (api_result (updated c id webhook), [PutWebhookEndpoint id webhook]).

Definition DeleteWebhookEndpoint (c : WebhookApi) (id : string)
  : option error * list WebhookCall :=
  (api_error (deleted c id), [DeleteWebhookEndpointCall id]).

(** [encoding/json] as used by events.go: [json_raw] is [json.Unmarshal] of
    the payload into a [json.RawMessage], [json_event] is [json.Unmarshal] of
    that message into a [WebhookEvent]; [None] is an error. *)
Record EventJson := {
  json_raw : list byte → option (list byte);
  json_event : list byte → option WebhookEvent
}.

Inductive ConstructError :=
| SignatureError (err : SigError)
| ParseJSONError.

Definition constructEvent (json : EventJson) (payload : list byte) (sigHeader secret : string)
  : ConstructError + list byte :=
  match validatePayload payload sigHeader secret with
  | Some err => inl (SignatureError err)
  | None =>
      match json_raw json payload with
      | None => inl ParseJSONError
      | Some e => inr e
      end
  end.

(** What [ServeHTTP] reads of a request: the [Signature] and
    [Authorization] headers (empty when absent) and the outcome of
    [io.ReadAll(r.Body)] ([None] is its error). *)
Record Request := {
  header_Signature : string;
  header_Authorization : string;
  request_body : option (list byte)
}.

Inductive ResponseBody :=
| Forbidden
| ReadFailed
| SignatureValidationFailed (err : ConstructError)
| InvalidEventJSON
| OK.

(** The status written, the body written, and the event handed to the
    callback goroutine, if any. *)
Record HttpResponse := {
  status : Z;
  body : ResponseBody;
  dispatched : option WebhookEvent
}.

(** [WebhookHandler]; the callback and the wait group are represented by
    the [dispatched] field of the response. *)
Record WebhookHandler := { secret : string; authToken : string }.

Definition ServeHTTP (json : EventJson) (h : WebhookHandler) (r : Request) : HttpResponse :=
  let signature := header_Signature r in
  let authHeader := header_Authorization r in
  if negb (String.eqb authHeader (authToken h)) then
    {| status := 403; body := Forbidden; dispatched := None |}
  else
    match request_body r with
    | None => {| status := 400; body := ReadFailed; dispatched := None |}
    | Some body =>
        match constructEvent json body signature (secret h) with
        | inl err =>
            {| status := 401; body := SignatureValidationFailed err; dispatched := None |}
        | inr rawEvent =>
            match json_event json rawEvent with
            | None => {| status := 400; body := InvalidEventJSON; dispatched := None |}
            | Some event => {| status := 200; body := OK; dispatched := Some event |}
            end
        end
    end.

End uac.

(** ** cmd: event routing and the polling reconciler *)

Module main.
Import config.

(** The anonymous payload struct of the ["access.door.unlock"] case. *)
Record UnlockPayload := {
  unlock_Location_ID : string;
  unlock_Actor_Name : string;
  unlock_Actor_Type : string;
  unlock_Object_Result : string
}.

(** The anonymous payload struct of the ["access.device.dps_status"] case. *)
Record DpsPayload := {
  dps_Location_ID : string;
  dps_Object_EventType : string;
  dps_Object_Status : string
}.

(** [encoding/json] is not part of the repository: [json.Unmarshal] into each
    of the two payload structs is taken as given, [None] being its error. *)
Record Json := {
  unmarshal_unlock : list byte → option UnlockPayload;
  unmarshal_dps : list byte → option DpsPayload
}.

Section globals.

(** The package-level variables [appConfig], [uacClient], [hubitatClient]. *)
Variable appConfig : Config.
Variable uacClient : uac.Client.
Variable hubitatClient : hubitat.Client.
Variable json : Json.

Fixpoint find_door (doors : list Door) (uacID : string) : option Door :=
  match doors with
  | [] => None
  | d :: rest => if String.eqb (UacID d) uacID then Some d else find_door rest uacID
  end.

(** Returns the door when [found] is true. *)
Definition getDoorByUacID (uacID : string) : option Door :=
  find_door (Doors appConfig) uacID.

Definition handleUacEvent (evt : uac.WebhookEvent) : M unit :=
  logf LevelInfo "Received UAC Event" >>
  if String.eqb (uac.Event evt) "access.door.unlock" then
    match unmarshal_unlock json (uac.EventData evt) with
    | None => logf LevelError "Failed to unmarshal event data"
    | Some payload =>
        if String.eqb (unlock_Actor_Type payload) "open-api"
           && String.eqb (unlock_Actor_Name payload) "unifi-access-hubitat-middleware"
        then logf LevelInfo "Door unlock event triggered by API, ignoring"
        else if negb (String.eqb (unlock_Object_Result payload) "Access Granted")
        then logf LevelInfo "Door unlock event not granted, ignoring"
        else
          match getDoorByUacID (unlock_Location_ID payload) with
          | None => logf LevelWarn "Door not found for UAC ID"
          | Some door =>
              call (Sleep 200) >>
              do err <- hubitat.AssertDoorSwitchOn hubitatClient (HubitatSwitchID door);
              match err with
              | Some _ => logf LevelError "Failed to assert door switch on in Hubitat"
              | None => ret tt
              end
          end
    end
  else if String.eqb (uac.Event evt) "access.device.dps_status" then
    match unmarshal_dps json (uac.EventData evt) with
    | None => logf LevelError "Failed to unmarshal event data"
    | Some payload =>
        if negb (String.eqb (dps_Object_EventType payload) "dps_change")
        then logf LevelError "Device event type is not dps_change, ignoring"
        else
          match getDoorByUacID (dps_Location_ID payload) with
          | None => logf LevelWarn "Door not found for UAC ID"
          | Some door =>
              if String.eqb (dps_Object_Status payload) "open" then
                do err <- hubitat.AssertDoorContactOpened hubitatClient (HubitatContactID door);
                match err with
                | Some _ => logf LevelError "Failed to assert door status in hubitat"
                | None => ret tt
                end
              else if String.eqb (dps_Object_Status payload) "close" then
                do err <- hubitat.AssertDoorContactClosed hubitatClient (HubitatContactID door);
                match err with
                | Some _ => logf LevelError "Failed to assert door status in hubitat"
                | None => ret tt
                end
              else logf LevelError "Unknown door status"
          end
    end
  else logf LevelError "Unknown Uac event".

(** The [for _, d := range doors] loop of the startup pass.  The result is
    [false] when the loop left [pollUacStates] through its [return], [true]
    when it ran to the end of the list. *)
Fixpoint snapshot_loop (doors : list uac.Door) : M bool :=
  match doors with
  | [] => ret true
  | d :: rest =>
      match getDoorByUacID (uac.ID d) with
      | None => logf LevelWarn "Door not found for UAC ID" >> ret false
      | Some door =>
          (if String.eqb (uac.DoorPositionStatus d) "open" then
             do err <- hubitat.AssertDoorContactOpened hubitatClient (HubitatContactID door);
             match err with
             | Some _ => logf LevelError "Failed to assert door contact opened"
             | None => ret tt
             end
           else if String.eqb (uac.DoorPositionStatus d) "close" then
             do err <- hubitat.AssertDoorContactClosed hubitatClient (HubitatContactID door);
             match err with
             | Some _ => logf LevelError "Failed to assert door contact closed"
             | None => ret tt
             end
           else ret tt) >>
          snapshot_loop rest
      end
  end.

(** The startup pass of [pollUacStates], up to the creation of the ticker. *)
Definition snapshot : M bool :=
  do r <- uac.FetchAllDoors uacClient;
  match r with
  | inl _ => logf LevelError "Failed to fetch all doors" >> ret true
  | inr doors => snapshot_loop doors
  end.

(** [doorLockRuleStates[id]]: a missing key reads as the empty string. *)
Definition prev_state (doorLockRuleStates : gmap string string) (id : string) : string :=
  default "" (doorLockRuleStates !! id).

(** The translation of a lock rule type: ["keep_unlock"] is "unlocked", the
    empty type is "locked", anything else has no translation (the loop
    logs a warning and continues). *)
Definition currDoorLockRuleState (ruleType : string) : option string :=
  if String.eqb ruleType "keep_unlock" then Some "unlocked"
  else if String.eqb ruleType "" then Some "locked"
  else None.

(** The body of [for _, door := range appConfig.Doors] in one tick. *)
Definition poll_door (door : Door) (doorLockRuleStates : gmap string string)
  : M (gmap string string) :=
  match HubitatLockID door with
  | None => ret doorLockRuleStates
  | Some lockID =>
      do r <- uac.GetDoorLockRule uacClient (UacID door);
      match r with
      | inl _ => logf LevelError "Failed to get door lock rule" >> ret doorLockRuleStates
      | inr rule =>
          match currDoorLockRuleState (uac.RuleType rule) with
          | None => logf LevelWarn "Unknown door lock rule type" >> ret doorLockRuleStates
          | Some curr =>
              let prevState := prev_state doorLockRuleStates (UacID door) in
              if negb (String.eqb curr prevState) then
                (if String.eqb curr "locked" then
                   do err <- hubitat.AssertDoorLockLocked hubitatClient lockID;
                   match err with
                   | Some _ => logf LevelError "Failed to assert door lock locked"
                   | None => ret tt
                   end
                 else if String.eqb curr "unlocked" then
                   do err <- hubitat.AssertDoorLockUnlocked hubitatClient lockID;
                   match err with
                   | Some _ => logf LevelError "Failed to assert door lock unlocked"
                   | None => ret tt
                   end
                 else ret tt) >>
                ret (<[UacID door := curr]> doorLockRuleStates)
              else ret doorLockRuleStates
          end
      end
  end.

Fixpoint poll_doors (doors : list Door) (doorLockRuleStates : gmap string string)
  : M (gmap string string) :=
  match doors with
  | [] => ret doorLockRuleStates
  | door :: rest =>
      do states <- poll_door door doorLockRuleStates;
      poll_doors rest states
  end.

(** One [case <-ticker.C] of the loop. *)
Definition tick (doorLockRuleStates : gmap string string) : M (gmap string string) :=
  poll_doors (Doors appConfig) doorLockRuleStates.


Fixpoint find_device (doors : list Door) (hubitatID : string) : option (Door * string) :=
  match doors with
  | [] => None
  | d :: rest =>
      if String.eqb (HubitatContactID d) hubitatID then Some (d, "contact")
      else if match HubitatLockID d with
              | Some lockID => String.eqb lockID hubitatID
              | None => false
              end then Some (d, "lock")
      else if String.eqb (HubitatSwitchID d) hubitatID then Some (d, "switch")
      else find_device rest hubitatID
  end.

(** Returns the door and the device type when [found] is true. *)
Definition getDoorByHubitatID (hubitatID : string) : option (Door * string) :=
  find_device (Doors appConfig) hubitatID.

Definition handleHubitatEvent (evt : hubitat.WebhookEvent) : M unit :=
  logf LevelInfo "Received Hubitat Event" >>
  match getDoorByHubitatID (hubitat.DeviceID evt) with
  | None => logf LevelError "Door not found for Hubitat ID"
  | Some (door, deviceType) =>
      let finish (err : option uac.error) : M unit :=
        match err with
        | Some _ => logf LevelError "Failed to execute Hubitat event action"
        | None => ret tt
        end in
      if String.eqb deviceType "switch" then
        if String.eqb (hubitat.Value evt) "on" then
          do err <- uac.AssertToggleDoorUnlock uacClient (UacID door); finish err
        else finish None
      else if String.eqb deviceType "lock" then
        if String.eqb (hubitat.Value evt) "unlocked" then
          do err <- uac.AssertUnlockDoor uacClient (UacID door); finish err
        else if String.eqb (hubitat.Value evt) "locked" then
          do err <- uac.AssertLockDoor uacClient (UacID door); finish err
        else logf LevelError "Unknown lock value"
      else if String.eqb deviceType "contact" then finish None
      else logf LevelWarn "Unknown Hubitat event" >> finish None
  end.

End globals.

(** What the two remote systems answer during one tick. *)
Record World := { world_uac : uac.Client; world_hub : hubitat.Client }.

(** The [for { select { ... } }] loop: one entry of [ticks] per tick delivered
    before [ctx.Done()] is selected. *)
Fixpoint poll_loop (appConfig : Config) (ticks : list World)
    (doorLockRuleStates : gmap string string) : M (gmap string string) :=
  match ticks with
  | [] => ret doorLockRuleStates
  | w :: rest =>
      do states <- tick appConfig (world_uac w) (world_hub w) doorLockRuleStates;
      poll_loop appConfig rest states
  end.

(** [pollUacStates]: the startup pass against [startup], then the loop,
    starting from [make(map[string]string)]. *)
Definition pollUacStates (appConfig : Config) (startup : World) (ticks : list World)
  : M (gmap string string) :=
  do entered <- snapshot appConfig (world_uac startup) (world_hub startup);
  if entered : bool then poll_loop appConfig ticks ∅ else ret ∅.


Inductive RegistrationError :=
| ErrFetchWebhookEndpoints (cause : uac.error)
| ErrUpdateWebhookEndpoint (cause : uac.error)
| ErrCreateWebhookEndpoint (cause : uac.error).

(** How [assertUacWebhookExists] ends: with a webhook, with an error, or in
    the run-time panic of dereferencing a nil [webhook.ID]. *)
Inductive Registration :=
| Registered (webhook : uac.Webhook)
| Failed (err : RegistrationError)
| NilDereference.

(** [newWebhook], built from [appConfig.Server]. *)
Definition newWebhook (server : Server) : uac.Webhook :=
  {| uac.WebhookID := None;
     uac.Endpoint := (BaseURL server ++ "/webhook/uac")%string;
     uac.WebhookName := "unifi-access-hubitat-middleware";
     uac.Secret := None;
     uac.Events := ["access.device.dps_status"; "access.door.unlock"];
     uac.Headers := <["Authorization" := AuthToken server]> ∅ |}.

Definition fields_differ (webhook new : uac.Webhook) : bool :=
  negb (String.eqb (uac.Endpoint webhook) (uac.Endpoint new))
  || negb (utils.StringSlicesEqual (uac.Events webhook) (uac.Events new))
  || negb (utils.StringMapsEqual (uac.Headers webhook) (uac.Headers new)).

(** The [for _, webhook := range webhooks] loop and the creation after it.
    Both log lines of the loop dereference [webhook.ID] in their arguments,
    before anything is logged or sent. *)
Fixpoint register_loop (c : uac.WebhookApi) (new : uac.Webhook) (webhooks : list uac.Webhook)
  : Registration * list uac.WebhookCall :=
  match webhooks with
  | [] =>
      let '(r, t) := uac.AddWebhookEndpoint c new in
      match r with
      | inl err =>
          (Failed (ErrCreateWebhookEndpoint err),
           uac.WebhookLog LevelInfo "UAC webhook does not exist, creating new webhook" :: t)
      | inr createdWebhook =>
          (Registered createdWebhook,
           uac.WebhookLog LevelInfo "UAC webhook does not exist, creating new webhook" :: t)
      end
  | webhook :: rest =>
      if String.eqb (uac.WebhookName webhook) (uac.WebhookName new) then
        match uac.WebhookID webhook with
        | None => (NilDereference, [])
        | Some id =>
            if fields_differ webhook new then
              let '(r, t) := uac.UpdateWebhookEndpoint c id new in
              match r with
              | inl err =>
                  (Failed (ErrUpdateWebhookEndpoint err),
                   uac.WebhookLog LevelInfo "UAC webhook exists but fields differ, updating" :: t)
              | inr updated =>
                  (Registered updated,
                   uac.WebhookLog LevelInfo "UAC webhook exists but fields differ, updating" :: t)
              end
            else
              (Registered webhook,
               [uac.WebhookLog LevelInfo "UAC Webhook already exists and matches configuration"])
        end
      else register_loop c new rest
  end.

Definition assertUacWebhookExists (server : Server) (c : uac.WebhookApi)
  : Registration * list uac.WebhookCall :=
  let '(r, t) := uac.FetchWebhookEndpoints c in
  match r with
  | inl err => (Failed (ErrFetchWebhookEndpoints err), t)
  | inr webhooks =>
      let '(result, t') := register_loop c (newWebhook server) webhooks in
      (result, t ++ t')
  end.

End main.

(** ** Signature headers, as read and as written *)

(** A pair that makes [parseSignatureHeader] return [ErrInvalidHeader]: it
    does not split into exactly a key and a value, or its key is [t] and its
    value is not accepted by [ParseInt]. *)
Definition malformed_pair (kv : string) : bool :=
  match strings_Split "=" kv with
  | [k; v] =>
      String.eqb k "t" && match ParseInt v with inl _ => true | inr _ => false end
  | _ => true
  end.

(** A pair whose key is the known signature version. *)
Definition has_known_version (kv : string) : bool :=
  match strings_Split "=" kv with
  | [k; v] => String.eqb k signingVersion
  | _ => false
  end.

Fixpoint string_forallb (p : ascii → bool) (s : string) : bool :=
  match s with
  | EmptyString => true
  | String c rest => p c && string_forallb p rest
  end.

(** Neither of the two separators of the header syntax. *)
Definition not_separator (c : ascii) : bool :=
  negb (Ascii.eqb c ",") && negb (Ascii.eqb c "=").

(** The header the sender writes for a timestamp text and a digest text. *)
Definition header_of (T X : string) : string :=
  ("t=" ++ T ++ ",v1=" ++ X)%string.

(** The digest the sender computes over [T + "." + P] with secret [S]. *)
Definition digest_of (S T : string) (P : list byte) : list byte :=
  hmac_sha256 (bytes_of_string S) (bytes_of_string (T ++ ".")%string ++ P).

(** [t=T,v1=hex(HMAC-SHA256(S, T + "." + P))] *)
Definition signed_header (S T : string) (P : list byte) : string :=
  header_of T (hex_EncodeToString (digest_of S T P)).

(** ASCII upper case of the digits a..f. *)
Definition upper (c : ascii) : ascii :=
  let n := Z_of_ascii c in
  if (97 <=? n)%Z && (n <=? 102)%Z then ascii_of_N (Z.to_N (n - 32)) else c.

Fixpoint string_map (f : ascii → ascii) (s : string) : string :=
  match s with
  | EmptyString => EmptyString
  | String c rest => String (f c) (string_map f rest)
  end.

(** Every byte, and every byte string of a given length. *)
Definition all_bytes : list byte :=
  map (fun n => byte_of_Z (Z.of_nat n)) (seq 0 256).

Fixpoint byte_strings (n : nat) : list (list byte) :=
  match n with
  | O => [[]]
  | S n' => all_bytes ≫= (fun b => cons b <$> byte_strings n')
  end.

(** A pair that the loop of [parseSignatureHeader] passes over: a key and
    a value, the key being neither [t] nor the known version, or being the
    known version with a value that is not hexadecimal. *)
Definition skipped_pair (kv : string) : bool :=
  match strings_Split "=" kv with
  | [k; v] =>
      negb (String.eqb k "t")
      && (negb (String.eqb k signingVersion)
          || match hex_DecodeString v with None => true | Some _ => false end)
  | _ => false
  end.

(** ** Observations on traces *)



(** The requests of a trace that address one hub device. *)
Definition on_device (deviceID : string) (c : Call) : bool :=
  match c with
  | HubGetDeviceInfo d | HubSendDeviceCommand d _ _ => String.eqb d deviceID
  | _ => false
  end.

Definition calls_on (deviceID : string) (t : list Call) : list Call :=
  List.filter (on_device deviceID) t.

(** The state that one poll of the controller yields for a door: the
    translation of the rule type, or nothing when the fetch fails or the
    type has no translation. *)
Definition polled_state (u : uac.Client) (door : config.Door) : option string :=
  match uac.api_result (uac.lock_rule u (config.UacID door)) with
  | inl _ => None
  | inr rule => main.currDoorLockRuleState (uac.RuleType rule)
  end.

(** The hub assertion that the reconciler makes for a translated state. *)
Definition lock_assertion (h : hubitat.Client) (lockID st : string) : M (option hubitat.error) :=
  if String.eqb st "locked" then hubitat.AssertDoorLockLocked h lockID
  else hubitat.AssertDoorLockUnlocked h lockID.

(** The requests of a trace that go to the controller. *)
Definition is_uac_call (c : Call) : bool :=
  match c with
  | UacFetchAllDoors | UacFetchDoor _ | UacPutUnlock _
  | UacGetDoorLockRule _ | UacPutDoorLockRule _ _ => true
  | _ => false
  end.

Definition uac_calls (t : list Call) : list Call := List.filter is_uac_call t.

(** The requests of the webhook-endpoint API that change a registration. *)
Definition is_webhook_mutation (c : uac.WebhookCall) : bool :=
  match c with
  | uac.PostWebhookEndpoint _ | uac.PutWebhookEndpoint _ _
  | uac.DeleteWebhookEndpointCall _ => true
  | _ => false
  end.

Definition webhook_mutations (t : list uac.WebhookCall) : list uac.WebhookCall :=
  List.filter is_webhook_mutation t.

(** A door one of whose three hub devices has the given ID. *)
Definition has_device (d : config.Door) (hubitatID : string) : bool :=
  String.eqb (config.HubitatContactID d) hubitatID
  || match config.HubitatLockID d with
     | Some lockID => String.eqb lockID hubitatID
     | None => false
     end
  || String.eqb (config.HubitatSwitchID d) hubitatID.

(** The state a poll yields for a controller door ID; [polled_state] is this
    at the door's ID. *)
Definition state_of (u : uac.Client) (id : string) : option string :=
  match uac.api_result (uac.lock_rule u id) with
  | inl _ => None
  | inr rule => main.currDoorLockRuleState (uac.RuleType rule)
  end.

(** The contact assertion the startup pass makes for a reported position. *)
Definition position_assertion (h : hubitat.Client) (contactID position : string)
  : list Call :=
  if String.eqb position "open" then trace (hubitat.AssertDoorContactOpened h contactID)
  else if String.eqb position "close" then trace (hubitat.AssertDoorContactClosed h contactID)
  else [].

(** A command response that [sendDeviceCommand] takes as success. *)
Definition command_accepted (r : Reply unit) : bool :=
  match r with
  | TransportError | BadStatus _ => false
  | DecodeError | Body _ => true
  end.

(** A reply that is not a decoded body. *)
Definition no_body {T} (r : Reply T) : bool :=
  match r with
  | Body _ => false
  | _ => true
  end.

(** What one pass of the loop body does to the record table for a door. *)
Definition observe (u : uac.Client) (s : gmap string string) (d : config.Door)
  : gmap string string :=
  match config.HubitatLockID d, state_of u (config.UacID d) with
  | Some _, Some st => <[config.UacID d := st]> s
  | _, _ => s
  end.

(** The requests the reconciler may make for a registry: polls of the lock
    rule of a door with a lock device, fetches of such a lock device, and
    the commands lock and unlock to it; log lines; nothing else. *)
Definition reconciler_call (doors : list config.Door) (c : Call) : Prop :=
  match c with
  | UacGetDoorLockRule id =>
      ∃ d, d ∈ doors ∧ config.UacID d = id ∧ config.HubitatLockID d ≠ None
  | HubGetDeviceInfo dev => ∃ d, d ∈ doors ∧ config.HubitatLockID d = Some dev
  | HubSendDeviceCommand dev cmd secondaryValue =>
      (∃ d, d ∈ doors ∧ config.HubitatLockID d = Some dev)
      ∧ (cmd = "lock" ∨ cmd = "unlock") ∧ secondaryValue = ""
  | Log _ _ => True
  | _ => False
  end.

(** ** A sample installation

    One configured door and remote sides that answer from fixed tables; the
    closed statements below are evaluated on it. *)

Module sample.
Import config.

Definition front : Door :=
  {| UacID := "front"; HubitatContactID := "101";
     HubitatLockID := Some "102"; HubitatSwitchID := "103" |}.

Definition back : Door :=
  {| UacID := "back"; HubitatContactID := "201";
     HubitatLockID := Some "202"; HubitatSwitchID := "203" |}.

Definition appConfig : Config := {| Doors := [front; back] |}.

Definition attribute (name currentValue : string) : gmap string hubitat.any :=
  <["name" := hubitat.Str name]> (<["currentValue" := hubitat.Str currentValue]> ∅).

Definition device (id capability : string) (commands : list string)
    (attributeName currentValue : string) : hubitat.DeviceInfo :=
  {| hubitat.ID := id; hubitat.Type_ := "Virtual";
     hubitat.Attributes := [attribute attributeName currentValue];
     hubitat.Capabilities := [hubitat.Str capability; hubitat.Object []];
     hubitat.Commands := commands |}.

(** A hub whose contact, lock and switch devices report the given values
    and which accepts every command. *)
Definition hub (contact lock switch : string) : hubitat.Client :=
  {| hubitat.devices := fun id =>
       if String.eqb id "101" || String.eqb id "201"
       then Body (device id "ContactSensor" ["open"; "close"] "contact" contact)
       else if String.eqb id "102" || String.eqb id "202"
       then Body (device id "Lock" ["lock"; "unlock"] "lock" lock)
       else if String.eqb id "103" || String.eqb id "203"
       then Body (device id "Switch" ["on"; "off"] "switch" switch)
       else BadStatus 404;
     hubitat.commands := fun _ _ _ => Body tt |}.

(** A hub that answers nothing. *)
Definition hub_down : hubitat.Client :=
  {| hubitat.devices := fun _ => TransportError;
     hubitat.commands := fun _ _ _ => TransportError |}.

(** A switch that is on but whose device does not list the Switch capability. *)
Definition hub_without_capability : hubitat.Client :=
  {| hubitat.devices := fun id =>
       Body {| hubitat.ID := id; hubitat.Type_ := "Virtual";
               hubitat.Attributes := [attribute "switch" "on"];
               hubitat.Capabilities := [];
               hubitat.Commands := ["on"; "off"] |};
     hubitat.commands := fun _ _ _ => Body tt |}.

(** A contact device that reports no attribute named "contact". *)
Definition hub_without_attributes : hubitat.Client :=
  {| hubitat.devices := fun id =>
       Body {| hubitat.ID := id; hubitat.Type_ := "Virtual";
               hubitat.Attributes := [attribute "battery" "100"];
               hubitat.Capabilities := [hubitat.Str "ContactSensor"];
               hubitat.Commands := ["open"; "close"] |};
     hubitat.commands := fun _ _ _ => Body tt |}.

Definition success {T} (data : T) : Reply (uac.Response T) :=
  Body {| uac.Code := "SUCCESS"; uac.Msg := "success"; uac.Data := data |}.

Definition controller_door (id position relay : string) : uac.Door :=
  {| uac.DoorLockRelayStatus := relay; uac.DoorPositionStatus := position;
     uac.FloorID := ""; uac.FullName := id; uac.ID := id; uac.IsBindHub := true;
     uac.Name := id; uac.Type_ := "door" |}.

(** A controller that lists [doors], reports the relay status [relay] for
    every door and the lock rule type [ruleType id] for door [id], and
    accepts every change. *)
Definition controller (doors : list uac.Door) (relay : string)
    (ruleType : string → string) : uac.Client :=
  {| uac.all_doors := success doors;
     uac.door := fun id => success (controller_door id "close" relay);
     uac.unlock := fun _ => success tt;
     uac.lock_rule := fun id => success {| uac.RuleType := ruleType id |};
     uac.set_lock_rule := fun _ _ => success tt |}.

(** The rule types of a controller on which door "front" is kept unlocked
    and every other door follows its default rule. *)
Definition front_kept_unlocked (id : string) : string :=
  if String.eqb id "front" then "keep_unlock" else "".

(** The decoded payloads of the event at hand. *)
Definition json (u : option main.UnlockPayload) (d : option main.DpsPayload) : main.Json :=
  {| main.unmarshal_unlock := fun _ => u; main.unmarshal_dps := fun _ => d |}.

Definition unlock_event : uac.WebhookEvent :=
  {| uac.Event := "access.door.unlock"; uac.EventObjectID := "e1"; uac.EventData := [] |}.

Definition dps_event : uac.WebhookEvent :=
  {| uac.Event := "access.device.dps_status"; uac.EventObjectID := "e2"; uac.EventData := [] |}.

Definition unlock_payload (actorType actorName result : string) : main.UnlockPayload :=
  {| main.unlock_Location_ID := "front"; main.unlock_Actor_Name := actorName;
     main.unlock_Actor_Type := actorType; main.unlock_Object_Result := result |}.

Definition dps_payload (eventType status : string) : main.DpsPayload :=
  {| main.dps_Location_ID := "front"; main.dps_Object_EventType := eventType;
     main.dps_Object_Status := status |}.


Definition server : Server :=
  {| BaseURL := "https://uahm.example"; AuthToken := "token" |}.

Definition hub_event (deviceID value : string) : hubitat.WebhookEvent :=
  {| hubitat.Name := "lock"; hubitat.Value := value; hubitat.DisplayName := "Front";
     hubitat.DeviceID := deviceID; hubitat.DescriptionText := "";
     hubitat.Unit := hubitat.Nil; hubitat.ContentType := ""; hubitat.Data := hubitat.Nil |}.



(** A decoder that accepts every payload as it is and reads it as the
    unlock event. *)
Definition event_json : uac.EventJson :=
  {| uac.json_raw := fun payload => Some payload;
     uac.json_event := fun _ => Some unlock_event |}.

End sample.

(** * Properties *)

(** ** [StringSlicesEqual] *)

Section string_slices.
Import utils.

Let occ (x : string) (l : list string) : nat := count_occ string_dec l x.

Lemma count_of_insert (m : gmap string Z) (k x : string) (z : Z) :
  count_of (<[k := z]> m) x = if string_dec k x then z else count_of m x.
Proof.
  unfold count_of. destruct (string_dec k x) as [->|Hne].
  - by rewrite lookup_insert_eq.
  - by rewrite lookup_insert_ne.
Qed.

Lemma count_up_all (a : list string) (m : gmap string Z) (x : string) :
  count_of (foldl count_up m a) x = (count_of m x + Z.of_nat (occ x a))%Z.
Proof.
  revert m. induction a as [|v a IH]; intros m; simpl.
  - lia.
  - rewrite IH. unfold count_up, occ. rewrite count_of_insert. simpl.
    destruct (string_dec v x) as [->|Hne]; lia.
Qed.

Lemma count_down_spec (b : list string) (m : gmap string Z) :
  (∀ x, 0 ≤ count_of m x)%Z →
  count_down b m = true ↔ ∀ x, (Z.of_nat (occ x b) ≤ count_of m x)%Z.
Proof.
  revert m. induction b as [|v b IH]; intros m Hpos; simpl.
  - split; [intros _ x; apply Hpos | done].
  - rewrite count_of_insert. destruct (string_dec v v) as [_|]; [|done].
    destruct (Z.ltb_spec (count_of m v - 1) 0) as [Hlt|Hge].
    + split; [done|]. intros H. specialize (H v). unfold occ in H. simpl in H.
      destruct (string_dec v v); [lia | done].
    + rewrite IH.
      * split; intros H x; specialize (H x); rewrite count_of_insert in *;
          unfold occ in *; simpl in *; destruct (string_dec v x); subst; lia.
      * intros x. rewrite count_of_insert. destruct (string_dec v x); [lia | apply Hpos].
Qed.

Lemma occ_le_Permutation (b a : list string) :
  length a = length b → (∀ x, (occ x b ≤ occ x a)%nat) → a ≡ₚ b.
Proof.
  revert a. induction b as [|v b IH]; intros a Hlen Hocc.
  - destruct a; [done | discriminate].
  - assert (Hin : In v a).
    { apply (count_occ_In string_dec). specialize (Hocc v). unfold occ in Hocc.
      simpl in Hocc. destruct (string_dec v v); [lia | done]. }
    apply in_split in Hin as (a1 & a2 & ->).
    rewrite <- Permutation_middle. constructor. apply IH.
    + rewrite length_app in *. simpl in Hlen. lia.
    + intros x. specialize (Hocc x). unfold occ in *.
      rewrite count_occ_app in *. simpl in Hocc.
      destruct (string_dec v x); lia.
Qed.

Lemma StringSlicesEqual_Permutation (a b : list string) :
  StringSlicesEqual a b = true ↔ a ≡ₚ b.
Proof.
  unfold StringSlicesEqual.
  destruct (Nat.eqb_spec (length a) (length b)) as [Hlen|Hlen]; simpl.
  - rewrite count_down_spec.
    + split.
      * intros H. apply occ_le_Permutation; [done|]. intros x.
        specialize (H x). rewrite count_up_all in H. unfold count_of in H.
        rewrite lookup_empty in H. simpl in H. lia.
      * intros Hp x. rewrite count_up_all. unfold count_of at 1.
        rewrite lookup_empty. simpl. unfold occ.
        rewrite (proj1 (Permutation_count_occ string_dec a b) Hp x). lia.
    + intros x. rewrite count_up_all. unfold count_of. rewrite lookup_empty. simpl. lia.
  - split; [done|]. intros Hp. by apply Permutation_length in Hp.
Qed.

End string_slices.

(** C7: [StringSlicesEqual a b] holds exactly when [b] is a permutation of
    [a]; it accepts ["a","b"] against ["b","a"], rejects ["a","a","b"] against
    ["a","b"], and is symmetric in its arguments. *)
Theorem StringSlicesEqual_multiset :
  (∀ a b : list string, utils.StringSlicesEqual a b = true ↔ a ≡ₚ b)
  ∧ utils.StringSlicesEqual ["a"; "b"] ["b"; "a"] = true
  ∧ utils.StringSlicesEqual ["a"; "a"; "b"] ["a"; "b"] = false
  ∧ (∀ a b : list string, utils.StringSlicesEqual a b = utils.StringSlicesEqual b a).
Proof.
  split; [apply StringSlicesEqual_Permutation|].
  split; [by vm_compute|]. split; [by vm_compute|].
  intros a b.
  destruct (utils.StringSlicesEqual a b) eqn:Hab, (utils.StringSlicesEqual b a) eqn:Hba;
    try done.
  - apply StringSlicesEqual_Permutation in Hab. symmetry in Hab.
    apply StringSlicesEqual_Permutation in Hab. congruence.
  - apply StringSlicesEqual_Permutation in Hba. symmetry in Hba.
    apply StringSlicesEqual_Permutation in Hba. congruence.
Qed.

(** ** Traces *)

Section monad_facts.
Context {A B : Type}.

Lemma trace_bind (m : M A) (f : A → M B) :
  trace (bind m f) = trace m ++ trace (f (value m)).
Proof. destruct m as [a t]. simpl. by destruct (f a). Qed.

Lemma value_bind (m : M A) (f : A → M B) :
  value (bind m f) = value (f (value m)).
Proof. destruct m as [a t]. simpl. by destruct (f a). Qed.

End monad_facts.

(** ** Device state assertion *)

Section assertion.
Import hubitat.

Variable c : Client.
Variables deviceID capability command attributeName desiredValue : string.

Let run := assertDeviceState c deviceID capability command attributeName desiredValue.

(** Every invocation starts with exactly one device-info fetch and sends at
    most one command after it. *)
Lemma assertDeviceState_trace :
  trace run = [HubGetDeviceInfo deviceID]
  ∨ trace run = [HubGetDeviceInfo deviceID; HubSendDeviceCommand deviceID command ""].
Proof.
  unfold run, assertDeviceState, GetDeviceInfo, sendDeviceCommand.
  destruct (devices c deviceID) as [| | |info]; simpl; auto.
  destruct (hasCapability info capability); simpl; auto.
  destruct (hasCommand info command); simpl; auto.
  destruct (existsb _ (Attributes info)); simpl; auto.
  destruct (commands c deviceID command ""); simpl; auto.
Qed.

Lemma assertDeviceState_mutations_le_1 : (length (mutations (trace run)) ≤ 1)%nat.
Proof. destruct assertDeviceState_trace as [-> | ->]; simpl; lia. Qed.

Lemma assertDeviceState_in_desired_state (info : DeviceInfo) :
  devices c deviceID = Body info →
  existsb (in_desired_state attributeName desiredValue) (Attributes info) = true →
  trace run = [HubGetDeviceInfo deviceID]
  ∧ value run =
      if negb (hasCapability info capability) then Some (ErrNoCapability deviceID capability)
      else if negb (hasCommand info command) then Some (ErrNoCommand deviceID command)
      else None.
Proof.
  intros Hinfo Hattr.
  unfold run, assertDeviceState, GetDeviceInfo. rewrite Hinfo. simpl.
  destruct (hasCapability info capability); simpl; auto.
  destruct (hasCommand info command); simpl; auto.
  rewrite Hattr. simpl. auto.
Qed.

Lemma assertDeviceState_not_in_desired_state (info : DeviceInfo) :
  devices c deviceID = Body info →
  hasCapability info capability = true →
  hasCommand info command = true →
  existsb (in_desired_state attributeName desiredValue) (Attributes info) = false →
  trace run = [HubGetDeviceInfo deviceID; HubSendDeviceCommand deviceID command ""]
  ∧ value run =
      match commands c deviceID command "" with
      | TransportError => Some (ErrSendCommand command deviceID ErrTransport)
      | BadStatus code => Some (ErrSendCommand command deviceID (ErrStatus code))
      | DecodeError | Body _ => None
      end.
Proof.
  intros Hinfo Hcap Hcmd Hattr.
  unfold run, assertDeviceState, GetDeviceInfo, sendDeviceCommand.
  rewrite Hinfo. simpl. rewrite Hcap, Hcmd, Hattr. simpl.
  destruct (commands c deviceID command ""); simpl; auto.
Qed.

End assertion.

Section controller_assertion.
Import uac.

Variable c : Client.
Variable doorID : string.

Lemma AssertToggleDoorUnlock_mutations_le_1 :
  (length (mutations (trace (AssertToggleDoorUnlock c doorID))) ≤ 1)%nat.
Proof.
  unfold AssertToggleDoorUnlock, FetchDoor. simpl.
  destruct (api_result (door c doorID)) as [e|d]; simpl; [lia|].
  destruct (String.eqb _ _); simpl; lia.
Qed.

Lemma AssertUnlockDoor_mutations_le_1 :
  (length (mutations (trace (AssertUnlockDoor c doorID))) ≤ 1)%nat.
Proof.
  unfold AssertUnlockDoor, GetDoorLockRule. simpl.
  destruct (api_result (lock_rule c doorID)) as [e|r]; simpl; [lia|].
  destruct (String.eqb _ _); simpl; lia.
Qed.

Lemma AssertLockDoor_mutations_le_1 :
  (length (mutations (trace (AssertLockDoor c doorID))) ≤ 1)%nat.
Proof.
  unfold AssertLockDoor, GetDoorLockRule. simpl.
  destruct (api_result (lock_rule c doorID)) as [e|r]; simpl; [lia|].
  destruct (String.eqb _ _); simpl; lia.
Qed.

Lemma AssertToggleDoorUnlock_already (d : Door) :
  api_result (door c doorID) = inr d →
  DoorLockRelayStatus d = "unlock" →
  AssertToggleDoorUnlock c doorID = (None, [UacFetchDoor doorID]).
Proof.
  intros Hd Hs. unfold AssertToggleDoorUnlock, FetchDoor. simpl.
  rewrite Hd, Hs. reflexivity.
Qed.

Lemma AssertUnlockDoor_already (r : DoorLockRule) :
  api_result (lock_rule c doorID) = inr r →
  RuleType r = "keep_unlock" →
  AssertUnlockDoor c doorID = (None, [UacGetDoorLockRule doorID]).
Proof.
  intros Hr Ht. unfold AssertUnlockDoor, GetDoorLockRule. simpl.
  rewrite Hr, Ht. reflexivity.
Qed.

Lemma AssertLockDoor_already (r : DoorLockRule) :
  api_result (lock_rule c doorID) = inr r →
  RuleType r = "" →
  AssertLockDoor c doorID = (None, [UacGetDoorLockRule doorID]).
Proof.
  intros Hr Ht. unfold AssertLockDoor, GetDoorLockRule. simpl.
  rewrite Hr, Ht. reflexivity.
Qed.

End controller_assertion.

(** C3, amended: an invocation of [assertDeviceState] issues at most one
    mutating command.  When a fetched attribute entry named [attributeName]
    already has [currentValue] equal to [desiredValue] it issues none, and it
    returns success provided the capability and command checks pass (the
    error of the failed check otherwise).  [AssertToggleDoorUnlock],
    [AssertUnlockDoor] and [AssertLockDoor] issue at most one mutating call,
    and return success without one when the fetched relay status is "unlock",
    the rule type is "keep_unlock", the rule type is empty, respectively. *)
Theorem assert_issues_at_most_one_command
    (h : hubitat.Client) (u : uac.Client)
    (deviceID capability command attributeName desiredValue : string)
    (toggled unlocked locked : string)
    (info : hubitat.DeviceInfo) (d : uac.Door) (r1 r2 : uac.DoorLockRule) :
  let run := hubitat.assertDeviceState h deviceID capability command attributeName desiredValue in
  ((length (mutations (trace run)) ≤ 1)%nat
   ∧ (hubitat.devices h deviceID = Body info →
      existsb (hubitat.in_desired_state attributeName desiredValue)
              (hubitat.Attributes info) = true →
      mutations (trace run) = []
      ∧ value run =
          if negb (hubitat.hasCapability info capability)
          then Some (hubitat.ErrNoCapability deviceID capability)
          else if negb (hubitat.hasCommand info command)
          then Some (hubitat.ErrNoCommand deviceID command)
          else None))
  ∧ ((length (mutations (trace (uac.AssertToggleDoorUnlock u toggled))) ≤ 1)%nat
     ∧ (uac.api_result (uac.door u toggled) = inr d →
        uac.DoorLockRelayStatus d = "unlock" →
        value (uac.AssertToggleDoorUnlock u toggled) = None
        ∧ mutations (trace (uac.AssertToggleDoorUnlock u toggled)) = []))
  ∧ ((length (mutations (trace (uac.AssertUnlockDoor u unlocked))) ≤ 1)%nat
     ∧ (uac.api_result (uac.lock_rule u unlocked) = inr r1 →
        uac.RuleType r1 = "keep_unlock" →
        value (uac.AssertUnlockDoor u unlocked) = None
        ∧ mutations (trace (uac.AssertUnlockDoor u unlocked)) = []))
  ∧ ((length (mutations (trace (uac.AssertLockDoor u locked))) ≤ 1)%nat
     ∧ (uac.api_result (uac.lock_rule u locked) = inr r2 →
        uac.RuleType r2 = "" →
        value (uac.AssertLockDoor u locked) = None
        ∧ mutations (trace (uac.AssertLockDoor u locked)) = [])).
Proof.
  intros run. repeat split.
  - apply assertDeviceState_mutations_le_1.
  - destruct (assertDeviceState_in_desired_state h deviceID capability command
                attributeName desiredValue info H H0) as [Ht _].
    unfold run. by rewrite Ht.
  - by destruct (assertDeviceState_in_desired_state h deviceID capability command
                   attributeName desiredValue info H H0) as [_ Hv].
  - apply AssertToggleDoorUnlock_mutations_le_1.
  - by rewrite (AssertToggleDoorUnlock_already u toggled d H H0).
  - by rewrite (AssertToggleDoorUnlock_already u toggled d H H0).
  - apply AssertUnlockDoor_mutations_le_1.
  - by rewrite (AssertUnlockDoor_already u unlocked r1 H H0).
  - by rewrite (AssertUnlockDoor_already u unlocked r1 H H0).
  - apply AssertLockDoor_mutations_le_1.
  - by rewrite (AssertLockDoor_already u locked r2 H H0).
  - by rewrite (AssertLockDoor_already u locked r2 H H0).
Qed.

Lemma assert_issues_at_most_one_command_witness :
  let h := sample.hub "closed" "locked" "on" in
  let u := sample.controller [] "unlock" sample.front_kept_unlocked in
  (mutations (trace (hubitat.assertDeviceState h "103" "Switch" "on" "switch" "on")) = []
   ∧ value (hubitat.assertDeviceState h "103" "Switch" "on" "switch" "on") = None)
  ∧ (value (uac.AssertToggleDoorUnlock u "front") = None
     ∧ mutations (trace (uac.AssertToggleDoorUnlock u "front")) = [])
  ∧ (value (uac.AssertUnlockDoor u "front") = None
     ∧ mutations (trace (uac.AssertUnlockDoor u "front")) = [])
  ∧ (value (uac.AssertLockDoor u "back") = None
     ∧ mutations (trace (uac.AssertLockDoor u "back")) = []).
Proof.
  intros h u.
  destruct (assert_issues_at_most_one_command h u "103" "Switch" "on" "switch" "on"
              "front" "front" "back"
              (sample.device "103" "Switch" ["on"; "off"] "switch" "on")
              (sample.controller_door "front" "close" "unlock")
              {| uac.RuleType := "keep_unlock" |} {| uac.RuleType := "" |})
    as ((_ & Hhub) & (_ & Htoggle) & (_ & Hunlock) & (_ & Hlock)).
  split; [apply Hhub; reflexivity|].
  split; [apply Htoggle; reflexivity|].
  split; [apply Hunlock; reflexivity|].
  apply Hlock; reflexivity.
Defined.

(** C3 as stated fails where the attribute already has the desired value but
    a check fails: the result is the error of the check, not success. *)
Lemma assert_in_desired_state_without_capability :
  ∃ info : hubitat.DeviceInfo,
    hubitat.devices sample.hub_without_capability "103" = Body info
    ∧ existsb (hubitat.in_desired_state "switch" "on") (hubitat.Attributes info) = true
    ∧ hubitat.assertDeviceState sample.hub_without_capability "103" "Switch" "on" "switch" "on"
      = (Some (hubitat.ErrNoCapability "103" "Switch"), [HubGetDeviceInfo "103"]).
Proof. eexists. split; [reflexivity|]. split; by vm_compute. Qed.

(** C10: when the checks pass and no attribute entry is named
    [attributeName], the command is issued, and whatever is returned is not
    a configuration error. *)
Theorem assertDeviceState_missing_attribute
    (c : hubitat.Client) (deviceID capability command attributeName desiredValue : string)
    (info : hubitat.DeviceInfo) :
  hubitat.devices c deviceID = Body info →
  hubitat.hasCapability info capability = true →
  hubitat.hasCommand info command = true →
  forallb (fun attr => negb (hubitat.any_eq_string (hubitat.index attr "name") attributeName))
          (hubitat.Attributes info) = true →
  let run := hubitat.assertDeviceState c deviceID capability command attributeName desiredValue in
  trace run = [HubGetDeviceInfo deviceID; HubSendDeviceCommand deviceID command ""]
  ∧ (∀ e, value run = Some e → hubitat.is_configuration_error e = false).
Proof.
  intros Hinfo Hcap Hcmd Hnone run.
  assert (Hattr : existsb (hubitat.in_desired_state attributeName desiredValue)
                          (hubitat.Attributes info) = false).
  { clear Hinfo. induction (hubitat.Attributes info) as [|a l IH]; [done|].
    simpl in *. apply andb_prop in Hnone as [Ha Hl].
    rewrite (IH Hl), orb_false_r. unfold hubitat.in_desired_state.
    apply negb_true_iff in Ha. by rewrite Ha. }
  destruct (assertDeviceState_not_in_desired_state c deviceID capability command
              attributeName desiredValue info Hinfo Hcap Hcmd Hattr) as [Ht Hv].
  split; [exact Ht|]. intros e He. fold run in Hv. rewrite Hv in He.
  destruct (hubitat.commands c deviceID command ""); by inversion He.
Qed.

Lemma assertDeviceState_missing_attribute_witness :
  trace (hubitat.assertDeviceState sample.hub_without_attributes
           "101" "ContactSensor" "open" "contact" "open")
  = [HubGetDeviceInfo "101"; HubSendDeviceCommand "101" "open" ""]
  ∧ (∀ e, value (hubitat.assertDeviceState sample.hub_without_attributes
                   "101" "ContactSensor" "open" "contact" "open") = Some e →
          hubitat.is_configuration_error e = false).
Proof.
  apply (assertDeviceState_missing_attribute sample.hub_without_attributes
           "101" "ContactSensor" "open" "contact" "open"
           {| hubitat.ID := "101"; hubitat.Type_ := "Virtual";
              hubitat.Attributes := [sample.attribute "battery" "100"];
              hubitat.Capabilities := [hubitat.Str "ContactSensor"];
              hubitat.Commands := ["open"; "close"] |});
    by vm_compute.
Defined.

(** ** Event routing *)

(** C1: a door-unlock event whose actor is the middleware itself (type
    "open-api", name "unifi-access-hubitat-middleware"), or whose result is
    not "Access Granted", is logged and dropped: nothing is sent to the hub. *)
Theorem handleUacEvent_unlock_ignored
    (appConfig : config.Config) (hubitatClient : hubitat.Client) (json : main.Json)
    (evt : uac.WebhookEvent) (payload : main.UnlockPayload) :
  uac.Event evt = "access.door.unlock" →
  main.unmarshal_unlock json (uac.EventData evt) = Some payload →
  (main.unlock_Actor_Type payload = "open-api"
   ∧ main.unlock_Actor_Name payload = "unifi-access-hubitat-middleware")
  ∨ main.unlock_Object_Result payload ≠ "Access Granted" →
  hub_calls (trace (main.handleUacEvent appConfig hubitatClient json evt)) = []
  ∧ ∃ msg, trace (main.handleUacEvent appConfig hubitatClient json evt)
           = [Log LevelInfo "Received UAC Event"; Log LevelInfo msg].
Proof.
  intros Hevt Hjson Hdrop. unfold main.handleUacEvent.
  rewrite Hevt, Hjson. simpl.
  destruct (String.eqb (main.unlock_Actor_Type payload) "open-api"
            && String.eqb (main.unlock_Actor_Name payload) "unifi-access-hubitat-middleware")
    eqn:Hself; simpl.
  { split; [reflexivity | eauto]. }
  destruct (String.eqb_spec (main.unlock_Object_Result payload) "Access Granted")
    as [Hgranted|Hdenied]; simpl.
  - destruct Hdrop as [[Ht Hn]|Hne]; [|done].
    rewrite Ht, Hn in Hself. discriminate.
  - split; [reflexivity | eauto].
Qed.

Lemma handleUacEvent_unlock_ignored_witness :
  hub_calls (trace (main.handleUacEvent sample.appConfig (sample.hub "closed" "locked" "off")
                      (sample.json (Some (sample.unlock_payload "open-api"
                                            "unifi-access-hubitat-middleware" "Access Granted"))
                                   None)
                      sample.unlock_event)) = []
  ∧ hub_calls (trace (main.handleUacEvent sample.appConfig (sample.hub "closed" "locked" "off")
                        (sample.json (Some (sample.unlock_payload "user" "someone" "Access Denied"))
                                     None)
                        sample.unlock_event)) = [].
Proof.
  split.
  - apply (handleUacEvent_unlock_ignored sample.appConfig (sample.hub "closed" "locked" "off") _
             sample.unlock_event
             (sample.unlock_payload "open-api" "unifi-access-hubitat-middleware" "Access Granted"));
      [reflexivity | reflexivity | left; split; reflexivity].
  - apply (handleUacEvent_unlock_ignored sample.appConfig (sample.hub "closed" "locked" "off") _
             sample.unlock_event
             (sample.unlock_payload "user" "someone" "Access Denied"));
      [reflexivity | reflexivity | right; discriminate].
Defined.

(** A granted unlock by somebody else reaches the hub: after the 200 ms
    pause the switch is asserted on. *)
Example handleUacEvent_unlock_granted :
  trace (main.handleUacEvent sample.appConfig (sample.hub "closed" "locked" "off")
           (sample.json (Some (sample.unlock_payload "user" "someone" "Access Granted")) None)
           sample.unlock_event)
  = [Log LevelInfo "Received UAC Event"; Sleep 200;
     HubGetDeviceInfo "103"; HubSendDeviceCommand "103" "on" ""].
Proof. by vm_compute. Qed.

(** What [handleUacEvent] does with a door-position event, case by case. *)
Lemma handleUacEvent_dps
    (appConfig : config.Config) (hubitatClient : hubitat.Client) (json : main.Json)
    (evt : uac.WebhookEvent) (payload : main.DpsPayload) :
  uac.Event evt = "access.device.dps_status" →
  main.unmarshal_dps json (uac.EventData evt) = Some payload →
  let t := trace (main.handleUacEvent appConfig hubitatClient json evt) in
  (main.dps_Object_EventType payload ≠ "dps_change" → hub_calls t = [])
  ∧ (main.dps_Object_EventType payload = "dps_change" →
     ∀ door, main.getDoorByUacID appConfig (main.dps_Location_ID payload) = Some door →
       (main.dps_Object_Status payload = "open" →
        hub_calls t = trace (hubitat.assertDeviceState hubitatClient
                               (config.HubitatContactID door) "ContactSensor" "open" "contact" "open"))
       ∧ (main.dps_Object_Status payload = "close" →
          hub_calls t = trace (hubitat.assertDeviceState hubitatClient
                                 (config.HubitatContactID door) "ContactSensor" "close" "contact" "close"))
       ∧ (main.dps_Object_Status payload ≠ "open" →
          main.dps_Object_Status payload ≠ "close" →
          t = [Log LevelInfo "Received UAC Event"; Log LevelError "Unknown door status"])).
Proof.
  intros Hevt Hjson t. unfold t, main.handleUacEvent. rewrite Hevt, Hjson. simpl.
  split.
  - intros Hne. apply String.eqb_neq in Hne. rewrite Hne. reflexivity.
  - intros Heq door Hdoor. rewrite Heq, Hdoor. simpl.
    split; [|split].
    + intros ->. simpl. unfold hubitat.AssertDoorContactOpened.
      destruct (assertDeviceState_trace hubitatClient (config.HubitatContactID door)
                  "ContactSensor" "open" "contact" "open") as [Ht|Ht];
        destruct (hubitat.assertDeviceState _ _ _ _ _ _) as [[e|] tr];
        simpl in *; subst tr; reflexivity.
    + intros ->. simpl. unfold hubitat.AssertDoorContactClosed.
      destruct (assertDeviceState_trace hubitatClient (config.HubitatContactID door)
                  "ContactSensor" "close" "contact" "close") as [Ht|Ht];
        destruct (hubitat.assertDeviceState _ _ _ _ _ _) as [[e|] tr];
        simpl in *; subst tr; reflexivity.
    + intros Ho Hc. apply String.eqb_neq in Ho, Hc. rewrite Ho, Hc. reflexivity.
Qed.

(** C4 at a contact device that already reports "closed": a "close"
    position event still sends the close command, because the wrapper
    compares the attribute with "close"; asserting the device to "closed"
    sends nothing there. *)
Theorem handleUacEvent_dps_close_resends_command :
  let hub := sample.hub "closed" "locked" "off" in
  trace (main.handleUacEvent sample.appConfig hub
           (sample.json None (Some (sample.dps_payload "dps_change" "close")))
           sample.dps_event)
  = [Log LevelInfo "Received UAC Event";
     HubGetDeviceInfo "101"; HubSendDeviceCommand "101" "close" ""]
  ∧ trace (hubitat.assertDeviceState hub "101" "ContactSensor" "close" "contact" "closed")
    = [HubGetDeviceInfo "101"].
Proof. split; by vm_compute. Qed.

(** ** The polling reconciler *)

(** Whatever follows an unmapped door in the fetched list has no effect on
    the startup pass, which ends there without reaching the ticker loop. *)
Lemma snapshot_loop_unconfigured
    (appConfig : config.Config) (hubitatClient : hubitat.Client)
    (pre post : list uac.Door) (d : uac.Door) :
  main.getDoorByUacID appConfig (uac.ID d) = None →
  main.snapshot_loop appConfig hubitatClient (pre ++ d :: post)
  = main.snapshot_loop appConfig hubitatClient (pre ++ [d])
  ∧ value (main.snapshot_loop appConfig hubitatClient (pre ++ d :: post)) = false.
Proof.
  intros Hnone. induction pre as [|a pre [IH IHv]]; simpl.
  - by rewrite Hnone.
  - destruct (main.getDoorByUacID appConfig (uac.ID a)) as [door|]; [|done].
    rewrite IH. split; [done|]. by rewrite value_bind, <- IH.
Qed.

(** C5 at a fetched list whose first door has no mapping: the startup pass
    returns at that door, the configured door behind it is never asserted,
    and the reconciler never ticks; with the two doors in the other order
    the configured door is asserted first. *)
Theorem snapshot_returns_at_unconfigured_door :
  let garage := sample.controller_door "garage" "close" "lock" in
  let front := sample.controller_door "front" "open" "lock" in
  let hub := sample.hub "closed" "locked" "off" in
  main.snapshot sample.appConfig (sample.controller [garage; front] "lock" (fun _ => "")) hub
  = (false, [UacFetchAllDoors; Log LevelWarn "Door not found for UAC ID"])
  ∧ (∀ ticks,
       trace (main.pollUacStates sample.appConfig
                {| main.world_uac := sample.controller [garage; front] "lock" (fun _ => "");
                   main.world_hub := hub |} ticks)
       = [UacFetchAllDoors; Log LevelWarn "Door not found for UAC ID"])
  ∧ main.snapshot sample.appConfig (sample.controller [front; garage] "lock" (fun _ => "")) hub
    = (false, [UacFetchAllDoors; HubGetDeviceInfo "101"; HubSendDeviceCommand "101" "open" "";
               Log LevelWarn "Door not found for UAC ID"]).
Proof. split; [by vm_compute|]. split; [intros ticks; by vm_compute | by vm_compute]. Qed.


Lemma calls_on_app (l : string) (t1 t2 : list Call) :
  calls_on l (t1 ++ t2) = calls_on l t1 ++ calls_on l t2.
Proof. apply List.filter_app. Qed.


Section lock_assertions.
Variable h : hubitat.Client.

Lemma calls_on_assertDeviceState (l l' cap cmd attr want : string) :
  calls_on l (trace (hubitat.assertDeviceState h l' cap cmd attr want))
  = if String.eqb l' l then trace (hubitat.assertDeviceState h l' cap cmd attr want) else [].
Proof.
  destruct (assertDeviceState_trace h l' cap cmd attr want) as [-> | ->];
    unfold calls_on; simpl; by destruct (String.eqb l' l).
Qed.


(** [lock_assertion] is one [assertDeviceState] on the lock device. *)
Lemma lock_assertion_unfold (l st : string) :
  ∃ cmd want, lock_assertion h l st = hubitat.assertDeviceState h l "Lock" cmd "lock" want.
Proof. unfold lock_assertion. destruct (String.eqb st "locked"); eauto. Qed.

Lemma calls_on_lock_assertion (l l' st : string) :
  calls_on l (trace (lock_assertion h l' st))
  = if String.eqb l' l then trace (lock_assertion h l' st) else [].
Proof.
  destruct (lock_assertion_unfold l' st) as (cmd & want & ->).
  apply calls_on_assertDeviceState.
Qed.


End lock_assertions.

Section poll_door_facts.
Import config.
Variable u : uac.Client.
Variable h : hubitat.Client.

Lemma currDoorLockRuleState_cases (ruleType st : string) :
  main.currDoorLockRuleState ruleType = Some st → st = "locked" ∨ st = "unlocked".
Proof.
  unfold main.currDoorLockRuleState.
  destruct (String.eqb ruleType "keep_unlock"); [intros [= <-]; auto|].
  destruct (String.eqb ruleType ""); [intros [= <-]; auto | done].
Qed.

Lemma poll_door_no_lock (d : Door) (s : gmap string string) :
  HubitatLockID d = None → main.poll_door u h d s = (s, []).
Proof. intros Hl. unfold main.poll_door. by rewrite Hl. Qed.


Lemma poll_door_unpolled (d : Door) (s : gmap string string) :
  polled_state u d = None →
  value (main.poll_door u h d s) = s ∧ ∀ x, calls_on x (trace (main.poll_door u h d s)) = [].
Proof.
  unfold polled_state. intros Hp. unfold main.poll_door, uac.GetDoorLockRule.
  destruct (HubitatLockID d) as [l|]; [|done]. simpl.
  destruct (uac.api_result (uac.lock_rule u (UacID d))) as [e|rule]; [done|].
  rewrite Hp. done.
Qed.

Lemma poll_door_unchanged (d : Door) (l st : string) (s : gmap string string) :
  HubitatLockID d = Some l →
  polled_state u d = Some st →
  main.prev_state s (UacID d) = st →
  main.poll_door u h d s = (s, [UacGetDoorLockRule (UacID d)]).
Proof.
  unfold polled_state. intros Hl Hp Hs. unfold main.poll_door, uac.GetDoorLockRule.
  rewrite Hl. simpl.
  destruct (uac.api_result (uac.lock_rule u (UacID d))) as [e|rule]; [done|].
  rewrite Hp, Hs, String.eqb_refl. reflexivity.
Qed.

Lemma poll_door_changed (d : Door) (l st : string) (s : gmap string string) :
  HubitatLockID d = Some l →
  polled_state u d = Some st →
  main.prev_state s (UacID d) ≠ st →
  value (main.poll_door u h d s) = <[UacID d := st]> s
  ∧ (∀ x, calls_on x (trace (main.poll_door u h d s)) = calls_on x (trace (lock_assertion h l st)))
  ∧ (∀ e, value (lock_assertion h l st) = Some e →
          ∃ msg, In (Log LevelError msg) (trace (main.poll_door u h d s))).
Proof.
  unfold polled_state. intros Hl Hp Hs. unfold main.poll_door, uac.GetDoorLockRule.
  rewrite Hl. simpl.
  destruct (uac.api_result (uac.lock_rule u (UacID d))) as [e|rule]; [done|].
  rewrite Hp. apply not_eq_sym, String.eqb_neq in Hs. rewrite Hs. simpl.
  unfold lock_assertion.
  destruct (currDoorLockRuleState_cases _ _ Hp) as [-> | ->]; simpl.
  - destruct (hubitat.AssertDoorLockLocked h l) as [[e|] t]; simpl.
    + split; [done|]. split.
      * intros x. rewrite app_nil_r, calls_on_app. simpl. by rewrite app_nil_r.
      * intros _ _. eexists. right. rewrite app_nil_r. apply in_or_app. right. by left.
    + split; [done|]. split; [|done].
      intros x. by rewrite !app_nil_r.
  - destruct (hubitat.AssertDoorLockUnlocked h l) as [[e|] t]; simpl.
    + split; [done|]. split.
      * intros x. rewrite app_nil_r, calls_on_app. simpl. by rewrite app_nil_r.
      * intros _ _. eexists. right. rewrite app_nil_r. apply in_or_app. right. by left.
    + split; [done|]. split; [|done].
      intros x. by rewrite !app_nil_r.
Qed.

End poll_door_facts.

Section poll_doors_facts.
Import config.
Variable u : uac.Client.
Variable h : hubitat.Client.

Lemma poll_door_record_other (d : Door) (s : gmap string string) (id : string) :
  UacID d ≠ id → value (main.poll_door u h d s) !! id = s !! id.
Proof.
  intros Hne. destruct (HubitatLockID d) as [l|] eqn:Hl.
  - destruct (polled_state u d) as [st|] eqn:Hp.
    + destruct (decide (main.prev_state s (UacID d) = st)) as [Hs|Hs].
      * by rewrite (poll_door_unchanged u h d l st s Hl Hp Hs).
      * destruct (poll_door_changed u h d l st s Hl Hp Hs) as (-> & _).
        by rewrite lookup_insert_ne.
    + by destruct (poll_door_unpolled u h d s Hp) as [-> _].
  - by rewrite poll_door_no_lock.
Qed.

Lemma poll_door_calls_other (d : Door) (s : gmap string string) (l : string) :
  HubitatLockID d ≠ Some l → calls_on l (trace (main.poll_door u h d s)) = [].
Proof.
  intros Hne. destruct (HubitatLockID d) as [l'|] eqn:Hl.
  - destruct (polled_state u d) as [st|] eqn:Hp.
    + destruct (decide (main.prev_state s (UacID d) = st)) as [Hs|Hs].
      * by rewrite (poll_door_unchanged u h d l' st s Hl Hp Hs).
      * destruct (poll_door_changed u h d l' st s Hl Hp Hs) as (_ & -> & _).
        rewrite calls_on_lock_assertion.
        destruct (String.eqb_spec l' l) as [->|]; [done | reflexivity].
    + by destruct (poll_door_unpolled u h d s Hp) as [_ ->].
  - by rewrite poll_door_no_lock.
Qed.

Lemma poll_doors_record_other (ds : list Door) (s : gmap string string) (id : string) :
  id ∉ UacID <$> ds → value (main.poll_doors u h ds s) !! id = s !! id.
Proof.
  revert s. induction ds as [|d ds IH]; intros s Hnot; [done|].
  rewrite fmap_cons in Hnot. apply not_elem_of_cons in Hnot as [Hne Hnot].
  simpl. rewrite value_bind, IH; [|done]. by apply poll_door_record_other.
Qed.

Lemma poll_doors_calls_other (ds : list Door) (s : gmap string string) (l : string) :
  l ∉ omap HubitatLockID ds → calls_on l (trace (main.poll_doors u h ds s)) = [].
Proof.
  revert s. induction ds as [|d ds IH]; intros s Hnot; [done|].
  simpl. rewrite trace_bind, calls_on_app.
  rewrite poll_door_calls_other, IH; [done| |].
  - intros Hin. apply Hnot. simpl. destruct (HubitatLockID d); [by right | done].
  - intros Hl. apply Hnot. simpl. rewrite Hl. by left.
Qed.

(** With distinct controller IDs and distinct lock devices, what a pass over
    all doors does to one door's lock device and record is what the loop
    body does for that door alone, from a map with the same record. *)
Lemma poll_doors_focus (ds : list Door) (door : Door) (l : string) :
  NoDup (UacID <$> ds) →
  NoDup (omap HubitatLockID ds) →
  door ∈ ds →
  HubitatLockID door = Some l →
  ∀ s, ∃ s',
    s' !! UacID door = s !! UacID door
    ∧ calls_on l (trace (main.poll_doors u h ds s))
      = calls_on l (trace (main.poll_door u h door s'))
    ∧ value (main.poll_doors u h ds s) !! UacID door
      = value (main.poll_door u h door s') !! UacID door
    ∧ (∀ c, In c (trace (main.poll_door u h door s')) →
            In c (trace (main.poll_doors u h ds s))).
Proof.
  intros Hids Hlocks Hin Hl.
  induction ds as [|d ds IH]; intros s; [by apply elem_of_nil in Hin|].
  rewrite fmap_cons in Hids. apply NoDup_cons in Hids as [Hid Hids].
  simpl. rewrite trace_bind, value_bind, calls_on_app.
  apply elem_of_cons in Hin as [->|Hin].
  - exists s. split; [done|].
    simpl in Hlocks. rewrite Hl in Hlocks. apply NoDup_cons in Hlocks as [Hlock _].
    rewrite poll_doors_calls_other, app_nil_r; [|done].
    split; [done|]. split; [by apply poll_doors_record_other|].
    intros c Hc. apply in_or_app. by left.
  - assert (Hd : UacID d ≠ UacID door).
    { intros Heq. apply Hid. rewrite Heq. by apply list_elem_of_fmap_2. }
    assert (Hdl : HubitatLockID d ≠ Some l).
    { intros Heq. simpl in Hlocks. rewrite Heq in Hlocks.
      apply NoDup_cons in Hlocks as [Hlock _]. apply Hlock.
      apply list_elem_of_omap. eauto. }
    assert (Hlocks' : NoDup (omap HubitatLockID ds)).
    { simpl in Hlocks. destruct (HubitatLockID d); [by apply NoDup_cons in Hlocks as [_ ?] | done]. }
    destruct (IH Hids Hlocks' Hin (value (main.poll_door u h d s)))
      as (s' & Hs' & Hc & Hv & Hlog).
    exists s'. rewrite poll_door_calls_other by done. simpl.
    split; [rewrite Hs'; by apply poll_door_record_other|].
    split; [done|]. split; [done|].
    intros c Hin'. apply in_or_app. right. by apply Hlog.
Qed.

End poll_doors_facts.

Section tick_facts.
Import config.
Variable appConfig : Config.
Variable door : Door.
Variable lockID : string.

Hypothesis distinct_doors : NoDup (UacID <$> Doors appConfig).
Hypothesis distinct_locks : NoDup (omap HubitatLockID (Doors appConfig)).
Hypothesis configured : door ∈ Doors appConfig.
Hypothesis has_lock : HubitatLockID door = Some lockID.

Lemma tick_changed (u : uac.Client) (h : hubitat.Client) (st : string)
    (s : gmap string string) :
  polled_state u door = Some st →
  main.prev_state s (UacID door) ≠ st →
  calls_on lockID (trace (main.tick appConfig u h s)) = trace (lock_assertion h lockID st)
  ∧ value (main.tick appConfig u h s) !! UacID door = Some st
  ∧ (∀ e, value (lock_assertion h lockID st) = Some e →
          ∃ msg, In (Log LevelError msg) (trace (main.tick appConfig u h s))).
Proof.
  intros Hp Hs. unfold main.tick.
  destruct (poll_doors_focus u h (Doors appConfig) door lockID
              distinct_doors distinct_locks configured has_lock s) as (s' & Hs' & -> & -> & Hlog).
  assert (Hprev : main.prev_state s' (UacID door) ≠ st).
  { unfold main.prev_state in *. by rewrite Hs'. }
  destruct (poll_door_changed u h door lockID st s' has_lock Hp Hprev) as (-> & -> & Herr).
  rewrite calls_on_lock_assertion, String.eqb_refl.
  split; [done|]. split; [by rewrite lookup_insert_eq|].
  intros e He. destruct (Herr e He) as [msg Hmsg]. exists msg. by apply Hlog.
Qed.

Lemma tick_unchanged (u : uac.Client) (h : hubitat.Client) (st : string)
    (s : gmap string string) :
  polled_state u door = Some st →
  s !! UacID door = Some st →
  calls_on lockID (trace (main.tick appConfig u h s)) = []
  ∧ value (main.tick appConfig u h s) !! UacID door = Some st.
Proof.
  intros Hp Hs. unfold main.tick.
  destruct (poll_doors_focus u h (Doors appConfig) door lockID
              distinct_doors distinct_locks configured has_lock s) as (s' & Hs' & -> & -> & Hlog).
  assert (Hprev : main.prev_state s' (UacID door) = st).
  { unfold main.prev_state. by rewrite Hs', Hs. }
  rewrite (poll_door_unchanged u h door lockID st s' has_lock Hp Hprev). simpl.
  split; [done|]. by rewrite Hs'.
Qed.



(** While the polled state stays what the record holds, no tick touches the
    lock device. *)
Lemma poll_loop_quiet (later : list main.World) (st : string) (s : gmap string string) :
  Forall (fun w => polled_state (main.world_uac w) door = Some st) later →
  s !! UacID door = Some st →
  calls_on lockID (trace (main.poll_loop appConfig later s)) = []
  ∧ value (main.poll_loop appConfig later s) !! UacID door = Some st.
Proof.
  intros Hall. revert s. induction Hall as [|w later Hw Hall IH]; intros s Hs; [done|].
  simpl. rewrite trace_bind, value_bind, calls_on_app.
  destruct (tick_unchanged (main.world_uac w) (main.world_hub w) st s Hw Hs) as [-> Hv].
  destruct (IH _ Hv) as [-> ->]. done.
Qed.

End tick_facts.



Example tick_first_then_second :
  let u := sample.controller [] "lock" sample.front_kept_unlocked in
  let h := sample.hub "closed" "locked" "off" in
  main.poll_loop sample.appConfig
    [ {| main.world_uac := u; main.world_hub := h |};
      {| main.world_uac := u; main.world_hub := h |} ] ∅
  = (<["back" := "locked"]> (<["front" := "unlocked"]> ∅),
     [ UacGetDoorLockRule "front"; HubGetDeviceInfo "102"; HubSendDeviceCommand "102" "unlock" "";
       UacGetDoorLockRule "back"; HubGetDeviceInfo "202";
       UacGetDoorLockRule "front"; UacGetDoorLockRule "back" ]).
Proof. by vm_compute. Qed.

(** C9: when the translated state differs from the record, the record is
    updated whatever the hub lock assertion returns; when it returns an
    error, the error is only logged.  As long as the controller keeps
    reporting that state, no later tick addresses the lock device again. *)
Theorem failed_lock_assertion_is_not_reissued
    (appConfig : config.Config) (w : main.World) (later : list main.World)
    (door : config.Door) (lockID st : string) (states : gmap string string) :
  NoDup (config.UacID <$> config.Doors appConfig) →
  NoDup (omap config.HubitatLockID (config.Doors appConfig)) →
  door ∈ config.Doors appConfig →
  config.HubitatLockID door = Some lockID →
  polled_state (main.world_uac w) door = Some st →
  main.prev_state states (config.UacID door) ≠ st →
  Forall (fun w' => polled_state (main.world_uac w') door = Some st) later →
  let first := main.tick appConfig (main.world_uac w) (main.world_hub w) states in
  calls_on lockID (trace first) = trace (lock_assertion (main.world_hub w) lockID st)
  ∧ value first !! config.UacID door = Some st
  ∧ (∀ e, value (lock_assertion (main.world_hub w) lockID st) = Some e →
          ∃ msg, In (Log LevelError msg) (trace first))
  ∧ calls_on lockID (trace (main.poll_loop appConfig later (value first))) = []
  ∧ value (main.poll_loop appConfig later (value first)) !! config.UacID door = Some st.
Proof.
  intros Hids Hlocks Hin Hl Hp Hprev Hlater first.
  destruct (tick_changed appConfig door lockID Hids Hlocks Hin Hl
              (main.world_uac w) (main.world_hub w) st states Hp Hprev) as (Hc & Hv & Herr).
  split; [done|]. split; [done|]. split; [done|].
  by apply (poll_loop_quiet appConfig door lockID Hids Hlocks Hin Hl later st).
Qed.

Lemma failed_lock_assertion_is_not_reissued_witness :
  let u := sample.controller [] "lock" sample.front_kept_unlocked in
  let down := {| main.world_uac := u; main.world_hub := sample.hub_down |} in
  let up := {| main.world_uac := u; main.world_hub := sample.hub "closed" "locked" "off" |} in
  let first := main.tick sample.appConfig u sample.hub_down ∅ in
  value (lock_assertion sample.hub_down "102" "unlocked")
  = Some (hubitat.ErrGetDeviceInfo "102" hubitat.ErrTransport)
  ∧ calls_on "102" (trace first) = [HubGetDeviceInfo "102"]
  ∧ value first !! "front" = Some "unlocked"
  ∧ (∃ msg, In (Log LevelError msg) (trace first))
  ∧ calls_on "102" (trace (main.poll_loop sample.appConfig [up; up; down] (value first))) = [].
Proof.
  intros u down up first.
  assert (Hids : NoDup (config.UacID <$> config.Doors sample.appConfig)).
  { apply (bool_decide_unpack _). by vm_compute. }
  assert (Hlocks : NoDup (omap config.HubitatLockID (config.Doors sample.appConfig))).
  { apply (bool_decide_unpack _). by vm_compute. }
  split; [reflexivity|].
  destruct (failed_lock_assertion_is_not_reissued sample.appConfig down [up; up; down]
              sample.front "102" "unlocked" ∅
              Hids Hlocks (list_elem_of_here _ _) eq_refl eq_refl)
    as (Hc & Hv & Herr & Hquiet & _).
  - discriminate.
  - repeat constructor.
  - split; [exact Hc|]. split; [exact Hv|].
    split; [exact (Herr _ eq_refl) | exact Hquiet].
Defined.

(** ** Signature verification *)

(** The digest functions agree with the published test vectors: SHA-256 of
    "abc" (FIPS 180-4) and HMAC-SHA-256 test cases 1 and 2 of RFC 4231. *)
Example sum256_abc :
  hex_EncodeToString (map byte_of_Z (Sha256.sum256 (map Z_of_byte (bytes_of_string "abc"))))
  = "ba7816bf8f01cfea414140de5dae2223b00361a396177a9cb410ff61f20015ad".
Proof. by vm_compute. Qed.

Example hmac_sha256_rfc4231_1 :
  hex_EncodeToString (hmac_sha256 (repeat Byte.x0b 20) (bytes_of_string "Hi There"))
  = "b0344c61d8db38535ca8afceaf0bf12b881dc200c9833da726e9376c2e32cff7".
Proof. by vm_compute. Qed.

Example hmac_sha256_rfc4231_2 :
  hex_EncodeToString (hmac_sha256 (bytes_of_string "Jefe")
                        (bytes_of_string "what do ya want for nothing?"))
  = "5bdcc146bf60754e6a042426089575c75a003f089d2739839dec58b964ec3843".
Proof. by vm_compute. Qed.

Example parseSignatureHeader_forms :
  parseSignatureHeader "" = inl ErrNotSigned
  ∧ parseSignatureHeader "t=12,v1=0aFF" = inr (SignedHeader 12 [Byte.x0a; Byte.xff])
  ∧ parseSignatureHeader "v1=0a" = inr (SignedHeader (-62135596800) [Byte.x0a])
  ∧ parseSignatureHeader "t=12,v2=0a,v1=zz" = inl ErrNoValidSignature
  ∧ parseSignatureHeader "t=12,v1=0a,extra" = inl ErrInvalidHeader
  ∧ parseSignatureHeader "t=1=2,v1=0a" = inl ErrInvalidHeader.
Proof. repeat split; by vm_compute. Qed.

Lemma hmac_Equal_eq (a b : list byte) : hmac_Equal a b = true ↔ a = b.
Proof.
  revert b. induction a as [|x a IH]; intros [|y b]; simpl; try done.
  rewrite andb_true_iff, IH. split.
  - intros [Hxy ->]. by rewrite (Byte.byte_dec_bl x y Hxy).
  - intros [= -> ->]. split; [by apply Byte.byte_dec_lb | done].
Qed.

Lemma sum256_length (msg : list Z) : length (Sha256.sum256 msg) = 32%nat.
Proof. unfold Sha256.sum256, Sha256.digest_bytes. by rewrite !length_app. Qed.

Lemma hmac_sha256_length (key msg : list byte) : length (hmac_sha256 key msg) = 32%nat.
Proof. unfold hmac_sha256, Hmac.sum. by rewrite length_map, sum256_length. Qed.

Lemma bytes_of_string_app (s1 s2 : string) :
  bytes_of_string (s1 ++ s2)%string = bytes_of_string s1 ++ bytes_of_string s2.
Proof.
  unfold bytes_of_string, list_byte_of_string.
  induction s1 as [|c s1 IH]; simpl; [done|]. by rewrite IH.
Qed.

Section split_facts.
Variable sep : ascii.

Lemma strings_Split_no_sep (s : string) :
  string_forallb (fun c => negb (Ascii.eqb c sep)) s = true →
  strings_Split sep s = [s].
Proof.
  induction s as [|c s IH]; simpl; [done|].
  intros [Hc Hs]%andb_prop. apply negb_true_iff in Hc. rewrite Hc, (IH Hs). done.
Qed.

Lemma strings_Split_app (s1 s2 : string) :
  string_forallb (fun c => negb (Ascii.eqb c sep)) s1 = true →
  strings_Split sep (s1 ++ String sep s2)%string = s1 :: strings_Split sep s2.
Proof.
  induction s1 as [|c s1 IH]; simpl.
  - intros _. by rewrite Ascii.eqb_refl.
  - intros [Hc Hs]%andb_prop. apply negb_true_iff in Hc. rewrite Hc, (IH Hs). done.
Qed.

End split_facts.

Lemma not_separator_comma (s : string) :
  string_forallb not_separator s = true →
  string_forallb (fun c => negb (Ascii.eqb c ",")) s = true.
Proof.
  induction s as [|c s IH]; simpl; [done|].
  unfold not_separator at 1. intros [[Hc _]%andb_prop Hs]%andb_prop.
  by rewrite Hc, (IH Hs).
Qed.

Lemma not_separator_equals (s : string) :
  string_forallb not_separator s = true →
  string_forallb (fun c => negb (Ascii.eqb c "=")) s = true.
Proof.
  induction s as [|c s IH]; simpl; [done|].
  unfold not_separator at 1. intros [[_ Hc]%andb_prop Hs]%andb_prop.
  by rewrite Hc, (IH Hs).
Qed.

(** *** Hexadecimal text *)

Lemma hex_DecodeString_byte (b : byte) (rest : string) :
  hex_DecodeString (String (hex_char (Byte.to_N b / 16))
                      (String (hex_char (Byte.to_N b mod 16)) rest))
  = match hex_DecodeString rest with
    | Some bs => Some (b :: bs)
    | None => None
    end.
Proof. destruct b; reflexivity. Qed.

Lemma hex_DecodeString_EncodeToString (bs : list byte) :
  hex_DecodeString (hex_EncodeToString bs) = Some bs.
Proof.
  induction bs as [|b bs IH]; [done|].
  cbn [hex_EncodeToString]. by rewrite hex_DecodeString_byte, IH.
Qed.

Lemma hex_char_not_separator (b : byte) :
  not_separator (hex_char (Byte.to_N b / 16)) = true
  ∧ not_separator (hex_char (Byte.to_N b mod 16)) = true.
Proof. destruct b; split; reflexivity. Qed.

Lemma hex_EncodeToString_not_separator (bs : list byte) :
  string_forallb not_separator (hex_EncodeToString bs) = true.
Proof.
  induction bs as [|b bs IH]; [done|].
  cbn [hex_EncodeToString string_forallb].
  destruct (hex_char_not_separator b) as [-> ->]. by rewrite IH.
Qed.

(** *** Decimal text *)

Lemma digit_char_code (d : Z) :
  (0 ≤ d < 10)%Z → Z_of_ascii (digit_char d) = (48 + d)%Z.
Proof.
  intros Hd.
  assert (d = 0 ∨ d = 1 ∨ d = 2 ∨ d = 3 ∨ d = 4 ∨ d = 5 ∨ d = 6 ∨ d = 7 ∨ d = 8 ∨ d = 9)%Z
    as Hcases by lia.
  repeat destruct Hcases as [-> | Hcases]; try reflexivity. by subst.
Qed.

Lemma digit_char_not_separator (d : Z) :
  (0 ≤ d < 10)%Z → not_separator (digit_char d) = true.
Proof.
  intros Hd.
  assert (d = 0 ∨ d = 1 ∨ d = 2 ∨ d = 3 ∨ d = 4 ∨ d = 5 ∨ d = 6 ∨ d = 7 ∨ d = 8 ∨ d = 9)%Z
    as Hcases by lia.
  repeat destruct Hcases as [-> | Hcases]; try reflexivity. by subst.
Qed.

(** Reading one digit [d] after the value [n]. *)
Lemma parseUint_loop_digit (d n : Z) (rest : string) :
  (0 ≤ d < 10)%Z → (0 ≤ n)%Z → (n * 10 + d ≤ maxUint64)%Z →
  parseUint_loop (String (digit_char d) rest) n = parseUint_loop rest (n * 10 + d).
Proof.
  intros Hd Hn Hmax. cbn [parseUint_loop]. rewrite (digit_char_code d Hd).
  assert (Hm : maxUint64 = 18446744073709551615%Z) by reflexivity.
  assert (Hc : (maxUint64 / 10 + 1)%Z = 1844674407370955162%Z) by reflexivity.
  rewrite Hc.
  destruct (Z.leb_spec 48 (48 + d)); [|lia].
  destruct (Z.leb_spec (48 + d) 57); [|lia]. simpl.
  destruct (Z.leb_spec 1844674407370955162 n); [lia|].
  replace (48 + d - 48)%Z with d by lia.
  destruct (Z.ltb_spec maxUint64 (n * 10 + d)); [lia | done].
Qed.

Lemma parseUint_loop_format_uint (fuel : nat) (n : Z) (acc : string) :
  (0 ≤ n ≤ maxUint64)%Z → (n < 10 ^ Z.of_nat fuel)%Z →
  parseUint_loop (format_uint fuel n acc) 0 = parseUint_loop acc n.
Proof.
  revert n acc. induction fuel as [|fuel IH]; intros n acc Hn Hlt.
  - simpl in *. by replace n with 0%Z by lia.
  - cbn [format_uint].
    assert (Hmod : (0 ≤ n mod 10 < 10)%Z) by (apply Z.mod_pos_bound; lia).
    assert (Hdiv : (n = n / 10 * 10 + n mod 10)%Z) by (rewrite Z.mul_comm; apply Z.div_mod; lia).
    destruct (Z.ltb_spec n 10) as [Hsmall|Hbig].
    + rewrite parseUint_loop_digit; [|lia|lia|].
      * f_equal. rewrite Z.mod_small; lia.
      * rewrite Z.mod_small; lia.
    + rewrite IH.
      * rewrite parseUint_loop_digit; [|lia| |lia].
        -- by rewrite <- Hdiv.
        -- apply Z.div_pos; lia.
      * split; [apply Z.div_pos; lia|]. apply Z.div_le_upper_bound; lia.
      * apply Z.div_lt_upper_bound; [lia|].
        rewrite Nat2Z.inj_succ, Z.pow_succ_r in Hlt; lia.
Qed.

Lemma format_uint_nonempty (fuel : nat) (n : Z) (acc : string) :
  format_uint (S fuel) n acc ≠ EmptyString.
Proof.
  revert n acc. induction fuel as [|fuel IH]; intros n acc.
  - cbn [format_uint]. by destruct (n <? 10)%Z.
  - change (format_uint (S (S fuel)) n acc)
      with (let acc' := String (digit_char (n mod 10)) acc in
            if (n <? 10)%Z then acc' else format_uint (S fuel) (n / 10) acc').
    simpl. destruct (n <? 10)%Z; [done | apply IH].
Qed.

Lemma format_uint_not_separator (fuel : nat) (n : Z) (acc : string) :
  string_forallb not_separator acc = true →
  string_forallb not_separator (format_uint fuel n acc) = true.
Proof.
  revert n acc. induction fuel as [|fuel IH]; intros n acc Hacc; [done|].
  cbn [format_uint].
  assert (Hacc' : string_forallb not_separator (String (digit_char (n mod 10)) acc) = true).
  { cbn [string_forallb]. rewrite Hacc, digit_char_not_separator; [done|].
    apply Z.mod_pos_bound. lia. }
  destruct (n <? 10)%Z; [done | by apply IH].
Qed.

Lemma formatInt_not_separator (x : Z) :
  string_forallb not_separator (formatInt x) = true.
Proof.
  unfold formatInt. destruct (x <? 0)%Z.
  - cbn [string_forallb]. by rewrite format_uint_not_separator.
  - by apply format_uint_not_separator.
Qed.

Lemma ParseInt_format_uint (fuel : nat) (n : Z) :
  (0 ≤ n < 2 ^ 63)%Z → (n < 10 ^ Z.of_nat (S fuel))%Z →
  ParseInt (format_uint (S fuel) n "") = inr n.
Proof.
  intros Hn Hlt.
  assert (H63 : (2 ^ 63)%Z = 9223372036854775808%Z) by reflexivity.
  assert (Hm : maxUint64 = 18446744073709551615%Z) by reflexivity.
  pose proof (format_uint_nonempty fuel n "") as Hne.
  pose proof (parseUint_loop_format_uint (S fuel) n "") as Hp.
  remember (format_uint (S fuel) n "") as s eqn:Hs. clear Hs.
  destruct s as [|c rest]; [done|]. clear Hne.
  cbn [ParseInt].
  assert (Hc : Ascii.eqb c "-" = false ∧ Ascii.eqb c "+" = false).
  { assert (Hp' : parseUint_loop (String c rest) 0 = inr n) by (rewrite Hp; [done|lia|lia]).
    split; apply Ascii.eqb_neq; intros ->; cbn in Hp'; discriminate. }
  destruct Hc as [-> ->]. cbn [orb negb andb]. unfold ParseUint.
  rewrite Hp by lia. cbn [parseUint_loop].
  destruct (Z.leb_spec (2 ^ 63) n); [lia | done].
Qed.

Lemma ParseInt_minus_format_uint (fuel : nat) (n : Z) :
  (0 < n ≤ 2 ^ 63)%Z → (n < 10 ^ Z.of_nat (S fuel))%Z →
  ParseInt (String "-" (format_uint (S fuel) n "")) = inr (- n)%Z.
Proof.
  intros Hn Hlt.
  assert (H63 : (2 ^ 63)%Z = 9223372036854775808%Z) by reflexivity.
  assert (Hm : maxUint64 = 18446744073709551615%Z) by reflexivity.
  pose proof (format_uint_nonempty fuel n "") as Hne.
  pose proof (parseUint_loop_format_uint (S fuel) n "") as Hp.
  remember (format_uint (S fuel) n "") as s eqn:Hs. clear Hs.
  cbn [ParseInt]. change (Ascii.eqb "-" "-") with true.
  change (Ascii.eqb "-" "+") with false. cbn [orb negb andb].
  unfold ParseUint. destruct s as [|c rest]; [done|].
  rewrite Hp by lia. cbn [parseUint_loop].
  destruct (Z.ltb_spec (2 ^ 63) n); [lia | done].
Qed.

(** [ParseInt] reads back what [%d] prints, for every [int64]. *)
Lemma ParseInt_formatInt (x : Z) :
  (- 2 ^ 63 ≤ x < 2 ^ 63)%Z → ParseInt (formatInt x) = inr x.
Proof.
  intros Hx.
  assert (H63 : (2 ^ 63)%Z = 9223372036854775808%Z) by reflexivity.
  assert (H20 : (10 ^ Z.of_nat 20)%Z = 100000000000000000000%Z) by reflexivity.
  unfold formatInt. destruct (Z.ltb_spec x 0) as [Hneg|Hpos].
  - rewrite (ParseInt_minus_format_uint 19 (- x)); [f_equal; lia | lia | lia].
  - apply (ParseInt_format_uint 19 x); lia.
Qed.

(** *** Reading a header of the form [t=<int64>,v1=<text>] *)

Lemma strings_Split_header_of (T X : string) :
  string_forallb not_separator T = true →
  string_forallb not_separator X = true →
  strings_Split "," (header_of T X) = [("t=" ++ T)%string; ("v1=" ++ X)%string].
Proof.
  intros HT HX. unfold header_of.
  change ("t=" ++ T ++ ",v1=" ++ X)%string
    with (String "t" (String "=" (T ++ String "," ("v1=" ++ X))))%string.
  cbn [strings_Split]. change (Ascii.eqb "t" ",") with false.
  change (Ascii.eqb "=" ",") with false. cbn iota.
  rewrite strings_Split_app by by apply not_separator_comma.
  change ("v1=" ++ X)%string with (String "v" (String "1" (String "=" X))).
  cbn [strings_Split]. change (Ascii.eqb "v" ",") with false.
  change (Ascii.eqb "1" ",") with false. change (Ascii.eqb "=" ",") with false.
  cbn iota. rewrite strings_Split_no_sep by by apply not_separator_comma.
  reflexivity.
Qed.

Lemma strings_Split_t (T : string) :
  string_forallb not_separator T = true →
  strings_Split "=" ("t=" ++ T)%string = ["t"; T].
Proof.
  intros HT. change ("t=" ++ T)%string with (String "t" (String "=" T)).
  cbn [strings_Split]. change (Ascii.eqb "t" "=") with false.
  change (Ascii.eqb "=" "=") with true. cbn iota.
  rewrite strings_Split_no_sep by by apply not_separator_equals.
  reflexivity.
Qed.

Lemma strings_Split_v1 (X : string) :
  string_forallb not_separator X = true →
  strings_Split "=" ("v1=" ++ X)%string = ["v1"; X].
Proof.
  intros HX. change ("v1=" ++ X)%string with (String "v" (String "1" (String "=" X))).
  cbn [strings_Split]. change (Ascii.eqb "v" "=") with false.
  change (Ascii.eqb "1" "=") with false. change (Ascii.eqb "=" "=") with true.
  cbn iota. rewrite strings_Split_no_sep by by apply not_separator_equals.
  reflexivity.
Qed.

Lemma parseSignatureHeader_header_of (ts : Z) (X : string) :
  (- 2 ^ 63 ≤ ts < 2 ^ 63)%Z →
  string_forallb not_separator X = true →
  parseSignatureHeader (header_of (formatInt ts) X)
  = match hex_DecodeString X with
    | Some (b :: sig) => inr (SignedHeader ts (b :: sig))
    | _ => inl ErrNoValidSignature
    end.
Proof.
  intros Hts HX. unfold parseSignatureHeader.
  rewrite strings_Split_header_of by (done || apply formatInt_not_separator).
  change (String.eqb (header_of (formatInt ts) X) "") with false. cbn iota.
  cbn [parsePairs].
  rewrite strings_Split_t by apply formatInt_not_separator.
  change (String.eqb "t" "t") with true. cbn iota.
  rewrite ParseInt_formatInt by done.
  rewrite strings_Split_v1 by done.
  change (String.eqb "v1" "t") with false.
  change (String.eqb "v1" signingVersion) with true. cbn iota.
  destruct (hex_DecodeString X) as [[|b sig]|]; reflexivity.
Qed.

Lemma computeSignature_digest_of (ts : Z) (P : list byte) (S : string) :
  computeSignature ts P S = digest_of S (formatInt ts) P.
Proof.
  unfold computeSignature, digest_of. by rewrite bytes_of_string_app, <- app_assoc.
Qed.

Lemma digest_of_nonempty (S T : string) (P : list byte) :
  ∃ b sig, digest_of S T P = b :: sig.
Proof.
  pose proof (hmac_sha256_length (bytes_of_string S)
                (bytes_of_string (T ++ ".")%string ++ P)) as Hlen.
  unfold digest_of. destruct (hmac_sha256 _ _) as [|b sig]; [discriminate | eauto].
Qed.

(** Verification against [t=<int64>,v1=X] succeeds exactly when [X] decodes
    to the expected digest, and fails with [ErrNoValidSignature] otherwise. *)
Lemma validatePayload_header_of (ts : Z) (X : string) (P : list byte) (S : string) :
  (- 2 ^ 63 ≤ ts < 2 ^ 63)%Z →
  string_forallb not_separator X = true →
  (hex_DecodeString X = Some (digest_of S (formatInt ts) P) →
   validatePayload P (header_of (formatInt ts) X) S = None)
  ∧ (hex_DecodeString X ≠ Some (digest_of S (formatInt ts) P) →
     validatePayload P (header_of (formatInt ts) X) S = Some ErrNoValidSignature).
Proof.
  intros Hts HX. unfold validatePayload.
  rewrite parseSignatureHeader_header_of by done.
  destruct (digest_of_nonempty S (formatInt ts) P) as (b0 & sig0 & Hd).
  split.
  - intros ->. rewrite Hd. cbn [timestamp signature].
    rewrite computeSignature_digest_of, Hd.
    by rewrite (proj2 (hmac_Equal_eq _ _) eq_refl).
  - intros Hne. destruct (hex_DecodeString X) as [[|b sig]|]; [done| |done].
    cbn [timestamp signature]. rewrite computeSignature_digest_of.
    destruct (hmac_Equal (digest_of S (formatInt ts) P) (b :: sig)) eqn:Heq; [|done].
    apply hmac_Equal_eq in Heq. congruence.
Qed.

(** *** Counting digests

    A digest has 32 bytes, so the payloads of 33 bytes cannot all have
    different digests. *)

Lemma all_bytes_complete (b : byte) : b ∈ all_bytes.
Proof.
  apply list_elem_of_In.
  assert (H : existsb (Byte.eqb b) all_bytes = true) by (destruct b; by vm_compute).
  apply existsb_exists in H as (x & Hin & Heq).
  by rewrite (Byte.byte_dec_bl b x Heq).
Qed.

Lemma all_bytes_NoDup : NoDup all_bytes.
Proof.
  apply (@bool_decide_unpack (NoDup all_bytes) (@NoDup_dec byte Byte.byte_eq_dec all_bytes)).
  by vm_compute.
Qed.

Lemma length_bind_const {A B} (f : A → list B) (k : nat) (l : list A) :
  (∀ x, length (f x) = k) → length (l ≫= f) = (length l * k)%nat.
Proof.
  intros Hk. induction l as [|x l IH]; [done|].
  rewrite bind_cons, length_app, Hk, IH. simpl. done.
Qed.

Lemma byte_strings_length (n : nat) :
  length (byte_strings n) = (length all_bytes ^ n)%nat.
Proof.
  induction n as [|n IH]; [done|].
  cbn [byte_strings]. rewrite (length_bind_const _ (length (byte_strings n))).
  - rewrite IH. by rewrite Nat.pow_succ_r'.
  - intros b. by rewrite length_fmap.
Qed.

Lemma byte_strings_complete (l : list byte) : l ∈ byte_strings (length l).
Proof.
  induction l as [|b l IH]; [by apply list_elem_of_here|].
  cbn [length byte_strings]. apply list_elem_of_bind. exists b.
  split; [by apply list_elem_of_fmap_2 | apply all_bytes_complete].
Qed.

Lemma byte_strings_elem_length (n : nat) (l : list byte) :
  l ∈ byte_strings n → length l = n.
Proof.
  revert l. induction n as [|n IH]; intros l.
  - cbn [byte_strings]. by intros ->%list_elem_of_singleton.
  - cbn [byte_strings]. intros (b & Hl & _)%list_elem_of_bind.
    apply list_elem_of_fmap in Hl as (l' & -> & Hl'). simpl. by rewrite (IH l' Hl').
Qed.

Lemma byte_strings_NoDup (n : nat) : NoDup (byte_strings n).
Proof.
  induction n as [|n IH]; [apply NoDup_singleton|].
  cbn [byte_strings]. apply NoDup_bind.
  - intros b1 b2 l _ _ (l1 & -> & _)%list_elem_of_fmap (l2 & Heq & _)%list_elem_of_fmap.
    congruence.
  - intros b _. apply NoDup_fmap_2_strong; [|done]. intros l1 l2 _ _. congruence.
  - apply all_bytes_NoDup.
Qed.

Lemma digests_collide (f : list byte → list byte) (n m : nat) :
  (n < m)%nat →
  (∀ P, length (f P) = n) →
  ¬ (∀ P P', length P = m → length P' = m → P ≠ P' → f P ≠ f P').
Proof.
  intros Hlt Hlen Hinj.
  assert (Hnodup : NoDup (f <$> byte_strings m)).
  { apply NoDup_fmap_2_strong; [|apply byte_strings_NoDup].
    intros P P' HP HP' Heq.
    destruct (List.list_eq_dec Byte.byte_eq_dec P P') as [|Hne]; [done|].
    destruct (Hinj P P' (byte_strings_elem_length m P HP)
                (byte_strings_elem_length m P' HP') Hne Heq). }
  assert (Hsub : f <$> byte_strings m ⊆+ byte_strings n).
  { apply NoDup_submseteq; [done|].
    intros d (P & -> & _)%list_elem_of_fmap.
    rewrite <- (Hlen P). apply byte_strings_complete. }
  apply submseteq_length in Hsub.
  rewrite length_fmap, !byte_strings_length in Hsub.
  assert (Hpow : (length all_bytes ^ n < length all_bytes ^ m)%nat).
  { apply Nat.pow_lt_mono_r; [|done].
    replace (length all_bytes) with 256%nat by by vm_compute. lia. }
  by apply Nat.lt_nge in Hpow.
Qed.

(** C2, amended: for an [int64] timestamp printed in decimal as [%d] prints
    it, the header [t=T,v1=hex(HMAC-SHA256(S, T + "." + P))] verifies [P].  A
    payload [P'] is rejected with the no-valid-signature error whenever the
    digest of [T + "." + P'] differs from the one in the header, and a header
    with another digest text [X], free of commas and equals signs, is
    rejected whenever [X] does not decode to the digest (it is accepted when
    it does, whatever the case of its letters).  A text with a comma or an
    equals sign is not one digest text: it is read as further pairs. *)
Theorem validatePayload_signed_header (P : list byte) (S : string) (ts : Z) :
  (- 2 ^ 63 ≤ ts < 2 ^ 63)%Z →
  let T := formatInt ts in
  validatePayload P (signed_header S T P) S = None
  ∧ (∀ P' : list byte,
       (digest_of S T P' = digest_of S T P →
        validatePayload P' (signed_header S T P) S = None)
       ∧ (digest_of S T P' ≠ digest_of S T P →
          validatePayload P' (signed_header S T P) S = Some ErrNoValidSignature))
  ∧ (∀ X : string,
       string_forallb not_separator X = true →
       (hex_DecodeString X = Some (digest_of S T P) →
        validatePayload P (header_of T X) S = None)
       ∧ (hex_DecodeString X ≠ Some (digest_of S T P) →
          validatePayload P (header_of T X) S = Some ErrNoValidSignature)).
Proof.
  intros Hts T. subst T. set (T := formatInt ts).
  assert (Hown : ∀ P', (digest_of S T P' = digest_of S T P →
                        validatePayload P' (signed_header S T P) S = None)
                       ∧ (digest_of S T P' ≠ digest_of S T P →
                          validatePayload P' (signed_header S T P) S
                          = Some ErrNoValidSignature)).
  { intros P'. unfold signed_header.
    destruct (validatePayload_header_of ts (hex_EncodeToString (digest_of S T P)) P' S Hts
                (hex_EncodeToString_not_separator _)) as [Hok Hko].
    rewrite hex_DecodeString_EncodeToString in Hok, Hko. split.
    - intros Heq. apply Hok. fold T. by rewrite Heq.
    - intros Hne. apply Hko. fold T. congruence. }
  split; [by apply Hown|]. split; [exact Hown|].
  intros X HX. by apply validatePayload_header_of.
Qed.

Lemma validatePayload_signed_header_witness :
  let P := bytes_of_string "{}" in
  let T := formatInt 1700000000 in
  validatePayload P (signed_header "secret" T P) "secret" = None
  ∧ validatePayload (bytes_of_string "{ }") (signed_header "secret" T P) "secret"
    = Some ErrNoValidSignature
  ∧ validatePayload P
      (header_of T (string_map upper (hex_EncodeToString (digest_of "secret" T P)))) "secret"
    = None
  ∧ validatePayload P
      (header_of T "c8569b78799ff9e3cbff0fc2d63a33a2b57f3282abd07c37ae5e8e7d79a5f163") "secret"
    = Some ErrNoValidSignature.
Proof.
  intros P T.
  assert (Hts : (- 2 ^ 63 ≤ 1700000000 < 2 ^ 63)%Z) by lia.
  destruct (validatePayload_signed_header P "secret" 1700000000 Hts) as (Hself & Hpayload & Hdigest).
  split; [exact Hself|].
  split; [apply (Hpayload (bytes_of_string "{ }")); by vm_compute|].
  split.
  - apply (Hdigest (string_map upper (hex_EncodeToString (digest_of "secret" T P))));
      by vm_compute.
  - apply (Hdigest "c8569b78799ff9e3cbff0fc2d63a33a2b57f3282abd07c37ae5e8e7d79a5f163");
      by vm_compute.
Defined.

(** C2 as stated fails in four places: a decimal timestamp that is not
    what [%d] prints for its value (leading zeros) is signed over a text the
    verifier does not rebuild; a decimal timestamp beyond [int64] is refused
    as an invalid header; a digest text that differs from the signed one
    only in the case of its letters still verifies; and, there being more
    payloads than digests, not every payload other than the signed one can
    be rejected. *)
Lemma signed_header_not_verified :
  let P := bytes_of_string "{}" in
  validatePayload P (signed_header "secret" "007" P) "secret" = Some ErrNoValidSignature
  ∧ validatePayload P (signed_header "secret" "9223372036854775808" P) "secret"
    = Some ErrInvalidHeader
  ∧ (let X := hex_EncodeToString (digest_of "secret" "1700000000" P) in
     string_map upper X ≠ X
     ∧ validatePayload P (header_of "1700000000" (string_map upper X)) "secret" = None)
  ∧ ¬ (∀ Q Q' : list byte,
         Q' ≠ Q →
         validatePayload Q' (signed_header "secret" "1700000000" Q) "secret" ≠ None).
Proof.
  intros P. split; [by vm_compute|]. split; [by vm_compute|].
  split; [split; by vm_compute|].
  intros Hall.
  apply (digests_collide (digest_of "secret" "1700000000") 32 33); [lia| |].
  - intros Q. apply hmac_sha256_length.
  - intros Q Q' _ _ Hne Heq. apply (Hall Q Q'); [done|].
    assert (Hts : (- 2 ^ 63 ≤ 1700000000 < 2 ^ 63)%Z) by lia.
    destruct (validatePayload_header_of 1700000000
                (hex_EncodeToString (digest_of "secret" "1700000000" Q)) Q' "secret" Hts
                (hex_EncodeToString_not_separator _)) as [Hok _].
    apply Hok. rewrite hex_DecodeString_EncodeToString.
    change (formatInt 1700000000) with "1700000000". by rewrite Heq.
Qed.

(** *** Failure kinds *)

Lemma parsePairs_malformed (pairs : list string) (sh : signedHeader) :
  existsb malformed_pair pairs = true → parsePairs pairs sh = inl ErrInvalidHeader.
Proof.
  revert sh. induction pairs as [|kv pairs IH]; intros sh; simpl; [done|].
  unfold malformed_pair at 1.
  destruct (strings_Split "=" kv) as [|k [|v [|x rest]]]; try done.
  destruct (String.eqb k "t"); simpl.
  - destruct (ParseInt v) as [e|ts]; simpl; [done | apply IH].
  - destruct (String.eqb k signingVersion); [|apply IH].
    destruct (hex_DecodeString v); apply IH.
Qed.

Lemma parsePairs_unsigned (pairs : list string) (sh : signedHeader) :
  existsb malformed_pair pairs = false →
  existsb has_known_version pairs = false →
  ∃ ts, parsePairs pairs sh = inr (SignedHeader ts (signature sh)).
Proof.
  revert sh. induction pairs as [|kv pairs IH]; intros [ts0 sig0]; simpl.
  - eauto.
  - unfold malformed_pair at 1, has_known_version at 1.
    destruct (strings_Split "=" kv) as [|k [|v [|x rest]]]; try done.
    intros [Hm Hms]%orb_false_elim [Hv Hvs]%orb_false_elim. rewrite Hv.
    destruct (String.eqb k "t"); simpl in *.
    + destruct (ParseInt v) as [e|ts]; [done|]. apply (IH (SignedHeader ts sig0) Hms Hvs).
    + apply (IH (SignedHeader ts0 sig0) Hms Hvs).
Qed.

(** C6, amended: an absent header yields [ErrNotSigned]; a header with a
    pair that does not split into key and value, or whose [t] value is not
    accepted by [ParseInt], yields [ErrInvalidHeader]; a header with no pair
    of the known version yields [ErrNoValidSignature]; and a digest mismatch
    after successful parsing yields [ErrNoValidSignature] as well, the same
    value, which differs from the other two. *)
Theorem validatePayload_failure_kinds
    (P : list byte) (S header : string) (sh : signedHeader) :
  validatePayload P "" S = Some ErrNotSigned
  ∧ (header ≠ "" →
     existsb malformed_pair (strings_Split "," header) = true →
     validatePayload P header S = Some ErrInvalidHeader)
  ∧ (header ≠ "" →
     existsb malformed_pair (strings_Split "," header) = false →
     existsb has_known_version (strings_Split "," header) = false →
     validatePayload P header S = Some ErrNoValidSignature)
  ∧ (parseSignatureHeader header = inr sh →
     signature sh ≠ computeSignature (timestamp sh) P S →
     validatePayload P header S = Some ErrNoValidSignature)
  ∧ ErrNotSigned ≠ ErrInvalidHeader
  ∧ ErrNotSigned ≠ ErrNoValidSignature
  ∧ ErrInvalidHeader ≠ ErrNoValidSignature.
Proof.
  split; [reflexivity|]. split; [|split; [|split]].
  - intros Hne Hbad. apply String.eqb_neq in Hne.
    unfold validatePayload, parseSignatureHeader. rewrite Hne.
    by rewrite parsePairs_malformed.
  - intros Hne Hok Hnone. apply String.eqb_neq in Hne.
    unfold validatePayload, parseSignatureHeader. rewrite Hne.
    destruct (parsePairs_unsigned _ zero_signedHeader Hok Hnone) as [ts ->].
    reflexivity.
  - intros Hparse Hdiff. unfold validatePayload. rewrite Hparse.
    destruct (hmac_Equal _ _) eqn:Heq; [|done].
    apply hmac_Equal_eq in Heq. congruence.
  - repeat split; discriminate.
Qed.

Lemma validatePayload_failure_kinds_witness :
  let P := bytes_of_string "{}" in
  validatePayload P "t=1700000000,v1" "secret" = Some ErrInvalidHeader
  ∧ validatePayload P "t=yesterday,v1=00" "secret" = Some ErrInvalidHeader
  ∧ validatePayload P "t=1700000000,v0=00" "secret" = Some ErrNoValidSignature
  ∧ validatePayload P "t=1700000000,v1=00" "secret" = Some ErrNoValidSignature.
Proof.
  intros P.
  split; [|split; [|split]].
  - destruct (validatePayload_failure_kinds P "secret" "t=1700000000,v1" zero_signedHeader)
      as (_ & Hbad & _). apply Hbad; [discriminate | reflexivity].
  - destruct (validatePayload_failure_kinds P "secret" "t=yesterday,v1=00" zero_signedHeader)
      as (_ & Hbad & _). apply Hbad; [discriminate | reflexivity].
  - destruct (validatePayload_failure_kinds P "secret" "t=1700000000,v0=00" zero_signedHeader)
      as (_ & _ & Hnone & _). apply Hnone; [discriminate | reflexivity | reflexivity].
  - destruct (validatePayload_failure_kinds P "secret" "t=1700000000,v1=00"
                (SignedHeader 1700000000 [Byte.x00]))
      as (_ & _ & _ & Hdiff & _). apply Hdiff; [reflexivity | by vm_compute].
Defined.

(** C6 as stated fails on its last part: a header that parses and carries
    a wrong digest is refused with the very error of a header that carries no
    signature of the known version. *)
Lemma digest_mismatch_is_no_valid_signature :
  let P := bytes_of_string "{}" in
  let header := signed_header "secret" "1700000000" P in
  (∃ sh, parseSignatureHeader header = inr sh)
  ∧ validatePayload P header "secret" = None
  ∧ validatePayload (bytes_of_string "{ }") header "secret" = Some ErrNoValidSignature
  ∧ validatePayload P "t=1700000000" "secret" = Some ErrNoValidSignature.
Proof.
  intros P header. split; [eexists; by vm_compute|].
  split; [by vm_compute|]. split; by vm_compute.
Qed.

(** * Further properties *)

(** ** [StringMapsEqual] *)

Lemma StringMapsEqual_eq_iff (a b : gmap string string) :
  utils.StringMapsEqual a b = true ↔ a = b.
Proof.
  unfold utils.StringMapsEqual. split.
  - destruct (Nat.eqb_spec (size a) (size b)) as [Hsize|]; [|done]. simpl.
    intros Hall. apply map_subseteq_size_eq; [|lia].
    apply map_subseteq_spec. intros k v Hk.
    apply elem_of_map_to_list, list_elem_of_In in Hk.
    rewrite forallb_forall in Hall. specialize (Hall _ Hk).
    unfold utils.same_entry in Hall. simpl in Hall.
    destruct (b !! k) as [vb|]; [|done]. by apply String.eqb_eq in Hall as ->.
  - intros ->. rewrite Nat.eqb_refl. simpl. apply forallb_forall.
    intros [k v] Hin. apply list_elem_of_In, elem_of_map_to_list in Hin.
    unfold utils.same_entry. simpl. rewrite Hin. apply String.eqb_refl.
Qed.

(** X1: [StringMapsEqual] holds exactly for equal maps: the same keys with
    the same values, whatever the order in which the entries are visited. *)
Theorem StringMapsEqual_eq (a b : gmap string string) :
  utils.StringMapsEqual a b = true ↔ a = b.
Proof. apply StringMapsEqual_eq_iff. Qed.

(** ** The door registry *)

Lemma find_door_Some (doors : list config.Door) (id : string) (d : config.Door) :
  main.find_door doors id = Some d → d ∈ doors ∧ config.UacID d = id.
Proof.
  induction doors as [|x doors IH]; simpl; [done|].
  destruct (String.eqb_spec (config.UacID x) id) as [Heq|Hne].
  - intros [= <-]. split; [apply list_elem_of_here | done].
  - intros H. destruct (IH H) as [Hin Hid]. split; [by apply list_elem_of_further | done].
Qed.

Lemma find_door_None (doors : list config.Door) (id : string) :
  main.find_door doors id = None ↔ id ∉ config.UacID <$> doors.
Proof.
  induction doors as [|x doors IH]; simpl.
  - split; [intros _; apply not_elem_of_nil | done].
  - rewrite not_elem_of_cons.
    destruct (String.eqb_spec (config.UacID x) id) as [Heq|Hne].
    + split; [done | intros [Hne _]; by destruct Hne].
    + rewrite IH. split; [intros H; split; [congruence | done] | by intros [_ H]].
Qed.

(** X2: [getDoorByUacID] finds nothing exactly for IDs of no configured
    door, what it finds is a configured door with the ID asked for, and when
    the controller IDs are distinct every configured door is found under its
    own ID. *)
Theorem getDoorByUacID_registry (appConfig : config.Config) (id : string) (d : config.Door) :
  (main.getDoorByUacID appConfig id = None ↔ id ∉ config.UacID <$> config.Doors appConfig)
  ∧ (main.getDoorByUacID appConfig id = Some d →
     d ∈ config.Doors appConfig ∧ config.UacID d = id)
  ∧ (NoDup (config.UacID <$> config.Doors appConfig) →
     d ∈ config.Doors appConfig →
     main.getDoorByUacID appConfig (config.UacID d) = Some d).
Proof.
  unfold main.getDoorByUacID. split; [apply find_door_None|].
  split; [apply find_door_Some|].
  induction (config.Doors appConfig) as [|x doors IH]; intros Hnd Hin.
  - by apply elem_of_nil in Hin.
  - rewrite fmap_cons in Hnd. apply NoDup_cons in Hnd as [Hx Hnd]. simpl.
    apply elem_of_cons in Hin as [->|Hin]; [by rewrite String.eqb_refl|].
    destruct (String.eqb_spec (config.UacID x) (config.UacID d)) as [Heq|Hne]; [|by apply IH].
    destruct Hx. rewrite Heq. by apply list_elem_of_fmap_2.
Qed.

Lemma getDoorByUacID_registry_witness :
  main.getDoorByUacID sample.appConfig "back" = Some sample.back
  ∧ (sample.back ∈ config.Doors sample.appConfig ∧ config.UacID sample.back = "back").
Proof.
  destruct (getDoorByUacID_registry sample.appConfig "back" sample.back) as (_ & Hsome & Hfound).
  assert (Hback : main.getDoorByUacID sample.appConfig "back" = Some sample.back).
  { apply Hfound; [apply (bool_decide_unpack _); by vm_compute|].
    apply list_elem_of_further, list_elem_of_here. }
  split; [exact Hback | exact (Hsome Hback)].
Defined.

Lemma find_device_role (doors : list config.Door) (hubitatID : string)
    (d : config.Door) (deviceType : string) :
  (main.find_device doors hubitatID = Some (d, deviceType) →
   d ∈ doors
   ∧ ((deviceType = "contact" ∧ config.HubitatContactID d = hubitatID)
      ∨ (deviceType = "lock" ∧ config.HubitatLockID d = Some hubitatID)
      ∨ (deviceType = "switch" ∧ config.HubitatSwitchID d = hubitatID)))
  ∧ (main.find_device doors hubitatID = None ↔
     forallb (fun x => negb (has_device x hubitatID)) doors = true).
Proof.
  induction doors as [|x doors [IHsome IHnone]]; simpl; [done|].
  unfold has_device at 1.
  destruct (String.eqb_spec (config.HubitatContactID x) hubitatID) as [Hc|Hc]; simpl.
  { split; [|done]. intros [= <- <-]. split; [apply list_elem_of_here | auto]. }
  destruct (config.HubitatLockID x) as [lockID|] eqn:Hlock.
  - destruct (String.eqb_spec lockID hubitatID) as [Hl|Hl]; simpl.
    { split; [|done]. intros [= <- <-]. split; [apply list_elem_of_here|].
      right. left. by rewrite Hlock, Hl. }
    destruct (String.eqb_spec (config.HubitatSwitchID x) hubitatID) as [Hs|Hs]; simpl.
    { split; [|done]. intros [= <- <-]. split; [apply list_elem_of_here | auto]. }
    split; [|done]. intros H. destruct (IHsome H) as [Hin Hrole].
    split; [by apply list_elem_of_further | done].
  - destruct (String.eqb_spec (config.HubitatSwitchID x) hubitatID) as [Hs|Hs]; simpl.
    { split; [|done]. intros [= <- <-]. split; [apply list_elem_of_here | auto]. }
    split; [|done]. intros H. destruct (IHsome H) as [Hin Hrole].
    split; [by apply list_elem_of_further | done].
Qed.

(** X3: what [getDoorByHubitatID] returns is a configured door together with
    the role that the device has at that door, and it returns nothing
    exactly when no configured door has the device in any of its three
    slots. *)
Theorem getDoorByHubitatID_role (appConfig : config.Config) (hubitatID : string)
    (d : config.Door) (deviceType : string) :
  (main.getDoorByHubitatID appConfig hubitatID = Some (d, deviceType) →
   d ∈ config.Doors appConfig
   ∧ ((deviceType = "contact" ∧ config.HubitatContactID d = hubitatID)
      ∨ (deviceType = "lock" ∧ config.HubitatLockID d = Some hubitatID)
      ∨ (deviceType = "switch" ∧ config.HubitatSwitchID d = hubitatID)))
  ∧ (main.getDoorByHubitatID appConfig hubitatID = None ↔
     forallb (fun x => negb (has_device x hubitatID)) (config.Doors appConfig) = true).
Proof. apply find_device_role. Qed.

Lemma getDoorByHubitatID_role_witness :
  main.getDoorByHubitatID sample.appConfig "202" = Some (sample.back, "lock")
  ∧ sample.back ∈ config.Doors sample.appConfig
  ∧ config.HubitatLockID sample.back = Some "202".
Proof.
  split; [reflexivity|].
  destruct (getDoorByHubitatID_role sample.appConfig "202" sample.back "lock") as [Hsome _].
  destruct (Hsome eq_refl) as [Hin [[H _]|[[_ H]|[H _]]]]; [discriminate | | discriminate].
  split; [exact Hin | exact H].
Defined.

(** ** Hub events *)

Section controller_traces.
Variable u : uac.Client.
Variable id : string.

Lemma AssertToggleDoorUnlock_trace :
  trace (uac.AssertToggleDoorUnlock u id) = [UacFetchDoor id]
  ∨ trace (uac.AssertToggleDoorUnlock u id) = [UacFetchDoor id; UacPutUnlock id].
Proof.
  unfold uac.AssertToggleDoorUnlock, uac.FetchDoor. simpl.
  destruct (uac.api_result (uac.door u id)) as [e|d]; simpl; auto.
  destruct (String.eqb _ _); simpl; auto.
Qed.

Lemma AssertUnlockDoor_trace :
  trace (uac.AssertUnlockDoor u id) = [UacGetDoorLockRule id]
  ∨ trace (uac.AssertUnlockDoor u id)
    = [UacGetDoorLockRule id; UacPutDoorLockRule id "keep_unlock"].
Proof.
  unfold uac.AssertUnlockDoor, uac.GetDoorLockRule. simpl.
  destruct (uac.api_result (uac.lock_rule u id)) as [e|r]; simpl; auto.
  destruct (String.eqb _ _); simpl; auto.
Qed.

Lemma AssertLockDoor_trace :
  trace (uac.AssertLockDoor u id) = [UacGetDoorLockRule id]
  ∨ trace (uac.AssertLockDoor u id) = [UacGetDoorLockRule id; UacPutDoorLockRule id "reset"].
Proof.
  unfold uac.AssertLockDoor, uac.GetDoorLockRule. simpl.
  destruct (uac.api_result (uac.lock_rule u id)) as [e|r]; simpl; auto.
  destruct (String.eqb _ _); simpl; auto.
Qed.

End controller_traces.

(** The trace of [handleHubitatEvent]: the first log line, the requests of
    at most one controller assertion, and at most one more log line. *)
Lemma handleHubitatEvent_trace
    (appConfig : config.Config) (u : uac.Client) (evt : hubitat.WebhookEvent) :
  ∃ (calls logs : list Call),
    trace (main.handleHubitatEvent appConfig u evt)
    = Log LevelInfo "Received Hubitat Event" :: calls ++ logs
    ∧ Forall (fun c => ∃ l msg, c = Log l msg) logs
    ∧ match main.getDoorByHubitatID appConfig (hubitat.DeviceID evt) with
      | None => calls = []
      | Some (d, deviceType) =>
          if String.eqb deviceType "switch" then
            if String.eqb (hubitat.Value evt) "on"
            then calls = trace (uac.AssertToggleDoorUnlock u (config.UacID d))
            else calls = []
          else if String.eqb deviceType "lock" then
            if String.eqb (hubitat.Value evt) "unlocked"
            then calls = trace (uac.AssertUnlockDoor u (config.UacID d))
            else if String.eqb (hubitat.Value evt) "locked"
            then calls = trace (uac.AssertLockDoor u (config.UacID d))
            else calls = []
          else calls = []
      end.
Proof.
  unfold main.handleHubitatEvent.
  destruct (main.getDoorByHubitatID appConfig (hubitat.DeviceID evt)) as [[d deviceType]|].
  2:{ exists [], [Log LevelError "Door not found for Hubitat ID"].
      split; [done|]. split; [|done]. repeat constructor. eauto. }
  assert (Hfin : ∀ m : M (option uac.error),
            ∃ logs, trace (bind m (fun err =>
                       match err with
                       | Some _ => logf LevelError "Failed to execute Hubitat event action"
                       | None => ret tt
                       end)) = trace m ++ logs
                    ∧ Forall (fun c => ∃ l msg, c = Log l msg) logs).
  { intros [[e|] t]; simpl.
    - eexists. split; [done|]. repeat constructor. eauto.
    - exists []. by rewrite app_nil_r. }
  destruct (String.eqb deviceType "switch").
  { destruct (String.eqb (hubitat.Value evt) "on").
    - destruct (Hfin (uac.AssertToggleDoorUnlock u (config.UacID d))) as (logs & Ht & Hl).
      exists (trace (uac.AssertToggleDoorUnlock u (config.UacID d))), logs.
      rewrite trace_bind. simpl. by rewrite Ht.
    - exists [], []. simpl. done. }
  destruct (String.eqb deviceType "lock").
  { destruct (String.eqb (hubitat.Value evt) "unlocked").
    - destruct (Hfin (uac.AssertUnlockDoor u (config.UacID d))) as (logs & Ht & Hl).
      exists (trace (uac.AssertUnlockDoor u (config.UacID d))), logs.
      rewrite trace_bind. simpl. by rewrite Ht.
    - destruct (String.eqb (hubitat.Value evt) "locked").
      + destruct (Hfin (uac.AssertLockDoor u (config.UacID d))) as (logs & Ht & Hl).
        exists (trace (uac.AssertLockDoor u (config.UacID d))), logs.
        rewrite trace_bind. simpl. by rewrite Ht.
      + exists [], [Log LevelError "Unknown lock value"].
        split; [done|]. split; [|done]. repeat constructor. eauto. }
  destruct (String.eqb deviceType "contact").
  - exists [], []. simpl. done.
  - exists [], [Log LevelWarn "Unknown Hubitat event"].
    split; [done|]. split; [|done]. repeat constructor. eauto.
Qed.

Lemma filter_logs (p : Call → bool) (logs : list Call) :
  (∀ l msg, p (Log l msg) = false) →
  Forall (fun c => ∃ l msg, c = Log l msg) logs →
  List.filter p logs = [].
Proof.
  intros Hp. induction 1 as [|c logs (l & msg & ->) _ IH]; [done|].
  simpl. by rewrite Hp.
Qed.

(** X4: whatever the hub event, [handleHubitatEvent] sends nothing to the
    hub and at most one mutating request to the controller. *)
Theorem handleHubitatEvent_outbound
    (appConfig : config.Config) (u : uac.Client) (evt : hubitat.WebhookEvent) :
  hub_calls (trace (main.handleHubitatEvent appConfig u evt)) = []
  ∧ (length (mutations (trace (main.handleHubitatEvent appConfig u evt))) ≤ 1)%nat.
Proof.
  destruct (handleHubitatEvent_trace appConfig u evt) as (calls & logs & -> & Hlogs & Hcalls).
  assert (Hshape : hub_calls calls = [] ∧ (length (mutations calls) ≤ 1)%nat).
  { destruct (main.getDoorByHubitatID _ _) as [[d ty]|]; [|subst; split; [done | simpl; lia]].
    destruct (String.eqb ty "switch").
    { destruct (String.eqb (hubitat.Value evt) "on"); [|subst; split; [done | simpl; lia]]. subst calls.
      split; [|apply AssertToggleDoorUnlock_mutations_le_1].
      by destruct (AssertToggleDoorUnlock_trace u (config.UacID d)) as [-> | ->]. }
    destruct (String.eqb ty "lock"); [|subst; split; [done | simpl; lia]].
    destruct (String.eqb (hubitat.Value evt) "unlocked").
    { subst calls. split; [|apply AssertUnlockDoor_mutations_le_1].
      by destruct (AssertUnlockDoor_trace u (config.UacID d)) as [-> | ->]. }
    destruct (String.eqb (hubitat.Value evt) "locked"); [|subst; split; [done | simpl; lia]]. subst calls.
    split; [|apply AssertLockDoor_mutations_le_1].
    by destruct (AssertLockDoor_trace u (config.UacID d)) as [-> | ->]. }
  destruct Hshape as [Hhub Hmut]. unfold hub_calls, mutations in *. simpl.
  rewrite !List.filter_app, Hhub.
  rewrite (filter_logs is_hub_call logs), (filter_logs is_mutating logs); try done.
  rewrite !app_nil_r. split; [done | exact Hmut].
Qed.

(** X5: an event from a device that is no configured door's lock or switch
    (a contact sensor, or a device the registry does not know) causes no
    request to the controller. *)
Theorem handleHubitatEvent_observational
    (appConfig : config.Config) (u : uac.Client) (evt : hubitat.WebhookEvent) :
  Forall (fun d => config.HubitatLockID d ≠ Some (hubitat.DeviceID evt)
                   ∧ config.HubitatSwitchID d ≠ hubitat.DeviceID evt)
         (config.Doors appConfig) →
  uac_calls (trace (main.handleHubitatEvent appConfig u evt)) = [].
Proof.
  intros Hnone.
  destruct (handleHubitatEvent_trace appConfig u evt) as (calls & logs & -> & Hlogs & Hcalls).
  assert (calls = []) as ->.
  { destruct (main.getDoorByHubitatID _ _) as [[d ty]|] eqn:Hfind; [|done].
    destruct (find_device_role (config.Doors appConfig) (hubitat.DeviceID evt) d ty)
      as [Hrole _].
    destruct (Hrole Hfind) as [Hin Hty].
    rewrite Forall_forall in Hnone. destruct (Hnone d Hin) as [Hl Hs].
    destruct Hty as [[-> _] | [[_ H] | [_ H]]]; done. }
  unfold uac_calls. simpl. by apply filter_logs.
Qed.

Lemma handleHubitatEvent_observational_witness :
  uac_calls (trace (main.handleHubitatEvent sample.appConfig
                      (sample.controller [] "lock" (fun _ => ""))
                      (sample.hub_event "101" "open"))) = [].
Proof.
  apply handleHubitatEvent_observational.
  repeat constructor; discriminate.
Defined.

(** X6: an event from a door's lock device changes the controller only when
    needed: "locked" resets the lock rule unless the rule type is already
    empty, "unlocked" sets "keep_unlock" unless that is already the rule,
    and any other value causes no request at all. *)
Theorem handleHubitatEvent_lock
    (appConfig : config.Config) (u : uac.Client) (evt : hubitat.WebhookEvent)
    (d : config.Door) (rule : uac.DoorLockRule) :
  main.getDoorByHubitatID appConfig (hubitat.DeviceID evt) = Some (d, "lock") →
  uac.api_result (uac.lock_rule u (config.UacID d)) = inr rule →
  let t := trace (main.handleHubitatEvent appConfig u evt) in
  (hubitat.Value evt = "locked" →
   mutations t = if String.eqb (uac.RuleType rule) "" then []
                 else [UacPutDoorLockRule (config.UacID d) "reset"])
  ∧ (hubitat.Value evt = "unlocked" →
     mutations t = if String.eqb (uac.RuleType rule) "keep_unlock" then []
                   else [UacPutDoorLockRule (config.UacID d) "keep_unlock"])
  ∧ (hubitat.Value evt ≠ "locked" → hubitat.Value evt ≠ "unlocked" → uac_calls t = []).
Proof.
  intros Hfind Hrule t. subst t.
  destruct (handleHubitatEvent_trace appConfig u evt) as (calls & logs & -> & Hlogs & Hcalls).
  rewrite Hfind in Hcalls. simpl in Hcalls.
  unfold mutations, uac_calls. simpl. rewrite !List.filter_app.
  rewrite (filter_logs is_mutating logs), (filter_logs is_uac_call logs), !app_nil_r; try done.
  split; [|split].
  - intros Hv. rewrite Hv in Hcalls. simpl in Hcalls. subst calls.
    unfold uac.AssertLockDoor, uac.GetDoorLockRule. simpl. rewrite Hrule.
    by destruct (String.eqb (uac.RuleType rule) "").
  - intros Hv. rewrite Hv in Hcalls. simpl in Hcalls. subst calls.
    unfold uac.AssertUnlockDoor, uac.GetDoorLockRule. simpl. rewrite Hrule.
    by destruct (String.eqb (uac.RuleType rule) "keep_unlock").
  - intros Hl Hu. apply String.eqb_neq in Hl, Hu. rewrite Hl, Hu in Hcalls. by subst.
Qed.

Lemma handleHubitatEvent_lock_witness :
  let u := sample.controller [] "lock" sample.front_kept_unlocked in
  mutations (trace (main.handleHubitatEvent sample.appConfig u (sample.hub_event "102" "locked")))
  = [UacPutDoorLockRule "front" "reset"]
  ∧ mutations (trace (main.handleHubitatEvent sample.appConfig u
                        (sample.hub_event "102" "unlocked"))) = []
  ∧ uac_calls (trace (main.handleHubitatEvent sample.appConfig u
                        (sample.hub_event "102" "jammed"))) = [].
Proof.
  intros u.
  assert (Hrule : uac.api_result (uac.lock_rule u "front")
                  = inr {| uac.RuleType := "keep_unlock" |}) by reflexivity.
  split; [|split].
  - by destruct (handleHubitatEvent_lock sample.appConfig u (sample.hub_event "102" "locked")
                   sample.front _ eq_refl Hrule) as (H & _ & _); specialize (H eq_refl).
  - by destruct (handleHubitatEvent_lock sample.appConfig u (sample.hub_event "102" "unlocked")
                   sample.front _ eq_refl Hrule) as (_ & H & _); specialize (H eq_refl).
  - destruct (handleHubitatEvent_lock sample.appConfig u (sample.hub_event "102" "jammed")
                sample.front _ eq_refl Hrule) as (_ & _ & H).
    apply H; discriminate.
Defined.

(** X7: an event from a door's switch device unlocks the door only for the
    value "on", and then only when the fetched relay is not already
    unlocked; every other value causes no request at all. *)
Theorem handleHubitatEvent_switch
    (appConfig : config.Config) (u : uac.Client) (evt : hubitat.WebhookEvent)
    (d : config.Door) (door : uac.Door) :
  main.getDoorByHubitatID appConfig (hubitat.DeviceID evt) = Some (d, "switch") →
  uac.api_result (uac.door u (config.UacID d)) = inr door →
  let t := trace (main.handleHubitatEvent appConfig u evt) in
  (hubitat.Value evt = "on" →
   mutations t = if String.eqb (uac.DoorLockRelayStatus door) "unlock" then []
                 else [UacPutUnlock (config.UacID d)])
  ∧ (hubitat.Value evt ≠ "on" → uac_calls t = []).
Proof.
  intros Hfind Hdoor t. subst t.
  destruct (handleHubitatEvent_trace appConfig u evt) as (calls & logs & -> & Hlogs & Hcalls).
  rewrite Hfind in Hcalls. simpl in Hcalls.
  unfold mutations, uac_calls. simpl. rewrite !List.filter_app.
  rewrite (filter_logs is_mutating logs), (filter_logs is_uac_call logs), !app_nil_r; try done.
  split.
  - intros Hv. rewrite Hv in Hcalls. simpl in Hcalls. subst calls.
    unfold uac.AssertToggleDoorUnlock, uac.FetchDoor. simpl. rewrite Hdoor.
    by destruct (String.eqb (uac.DoorLockRelayStatus door) "unlock").
  - intros Hv. apply String.eqb_neq in Hv. rewrite Hv in Hcalls. by subst.
Qed.

Lemma handleHubitatEvent_switch_witness :
  mutations (trace (main.handleHubitatEvent sample.appConfig
                      (sample.controller [] "lock" (fun _ => ""))
                      (sample.hub_event "103" "on"))) = [UacPutUnlock "front"]
  ∧ uac_calls (trace (main.handleHubitatEvent sample.appConfig
                        (sample.controller [] "lock" (fun _ => ""))
                        (sample.hub_event "103" "off"))) = [].
Proof.
  split.
  - by destruct (handleHubitatEvent_switch sample.appConfig
                   (sample.controller [] "lock" (fun _ => "")) (sample.hub_event "103" "on")
                   sample.front _ eq_refl eq_refl) as (H & _); specialize (H eq_refl).
  - destruct (handleHubitatEvent_switch sample.appConfig
                (sample.controller [] "lock" (fun _ => "")) (sample.hub_event "103" "off")
                sample.front _ eq_refl eq_refl) as (_ & H).
    apply H; discriminate.
Defined.

(** ** Controller events *)

(** The trace of [handleUacEvent]: the first log line, possibly the pause,
    the requests of at most one hub assertion, and at most one more log
    line. *)
Lemma handleUacEvent_trace
    (appConfig : config.Config) (h : hubitat.Client) (json : main.Json)
    (evt : uac.WebhookEvent) :
  ∃ (pause calls logs : list Call),
    trace (main.handleUacEvent appConfig h json evt)
    = Log LevelInfo "Received UAC Event" :: pause ++ calls ++ logs
    ∧ (pause = [] ∨ pause = [Sleep 200])
    ∧ (calls = [] ∨ ∃ dev cap cmd attr want,
                      calls = trace (hubitat.assertDeviceState h dev cap cmd attr want))
    ∧ Forall (fun c => ∃ l msg, c = Log l msg) logs.
Proof.
  assert (Hlog : ∀ l msg, ∃ pause calls logs : list Call,
            [Log l msg] = pause ++ calls ++ logs
            ∧ (pause = [] ∨ pause = [Sleep 200])
            ∧ (calls = [] ∨ ∃ dev cap cmd attr want,
                 calls = trace (hubitat.assertDeviceState h dev cap cmd attr want))
            ∧ Forall (fun c => ∃ l msg, c = Log l msg) logs).
  { intros l msg. exists [], [], [Log l msg]. repeat split; auto.
    repeat constructor. eauto. }
  assert (Hassert : ∀ (pause : list Call) dev cap cmd attr want msg,
            pause = [] ∨ pause = [Sleep 200] →
            ∃ pause' calls logs : list Call,
              pause ++ trace (bind (hubitat.assertDeviceState h dev cap cmd attr want)
                                (fun err => match err with
                                            | Some _ => logf LevelError msg
                                            | None => ret tt
                                            end))
              = pause' ++ calls ++ logs
              ∧ (pause' = [] ∨ pause' = [Sleep 200])
              ∧ (calls = [] ∨ ∃ dev cap cmd attr want,
                   calls = trace (hubitat.assertDeviceState h dev cap cmd attr want))
              ∧ Forall (fun c => ∃ l msg, c = Log l msg) logs).
  { intros pause dev cap cmd attr want msg Hpause.
    exists pause, (trace (hubitat.assertDeviceState h dev cap cmd attr want)).
    rewrite trace_bind.
    destruct (value (hubitat.assertDeviceState h dev cap cmd attr want)) as [e|].
    - exists [Log LevelError msg]. repeat split; eauto 10.
    - exists []. repeat split; eauto 10. }
  unfold main.handleUacEvent. simpl.
  destruct (String.eqb (uac.Event evt) "access.door.unlock").
  { destruct (main.unmarshal_unlock json _) as [p|]; simpl.
    2:{ destruct (Hlog LevelError "Failed to unmarshal event data") as (a & b & c & H & ?).
        exists a, b, c. by rewrite <- H. }
    destruct (_ && _); simpl.
    { destruct (Hlog LevelInfo "Door unlock event triggered by API, ignoring")
        as (a & b & c & H & ?). exists a, b, c. by rewrite <- H. }
    destruct (negb _); simpl.
    { destruct (Hlog LevelInfo "Door unlock event not granted, ignoring")
        as (a & b & c & H & ?). exists a, b, c. by rewrite <- H. }
    destruct (main.getDoorByUacID appConfig _) as [door|]; simpl.
    2:{ destruct (Hlog LevelWarn "Door not found for UAC ID") as (a & b & c & H & ?).
        exists a, b, c. by rewrite <- H. }
    destruct (Hassert [Sleep 200] (config.HubitatSwitchID door) "Switch" "on" "switch" "on"
                "Failed to assert door switch on in Hubitat") as (a & b & c & H & ?); [auto|].
    exists a, b, c. rewrite <- H. split; [|done].
    unfold hubitat.AssertDoorSwitchOn.
    by destruct (bind (hubitat.assertDeviceState _ _ _ _ _ _) _). }
  destruct (String.eqb (uac.Event evt) "access.device.dps_status").
  2:{ destruct (Hlog LevelError "Unknown Uac event") as (a & b & c & H & ?).
      exists a, b, c. by rewrite <- H. }
  destruct (main.unmarshal_dps json _) as [p|]; simpl.
  2:{ destruct (Hlog LevelError "Failed to unmarshal event data") as (a & b & c & H & ?).
      exists a, b, c. by rewrite <- H. }
  destruct (negb _); simpl.
  { destruct (Hlog LevelError "Device event type is not dps_change, ignoring")
      as (a & b & c & H & ?). exists a, b, c. by rewrite <- H. }
  destruct (main.getDoorByUacID appConfig _) as [door|]; simpl.
  2:{ destruct (Hlog LevelWarn "Door not found for UAC ID") as (a & b & c & H & ?).
      exists a, b, c. by rewrite <- H. }
  destruct (String.eqb (main.dps_Object_Status p) "open").
  { destruct (Hassert [] (config.HubitatContactID door) "ContactSensor" "open" "contact" "open"
                "Failed to assert door status in hubitat") as (a & b & c & H & ?); [auto|].
    exists a, b, c. rewrite <- H. split; [|done].
    unfold hubitat.AssertDoorContactOpened.
    by destruct (bind (hubitat.assertDeviceState _ _ _ _ _ _) _). }
  destruct (String.eqb (main.dps_Object_Status p) "close").
  { destruct (Hassert [] (config.HubitatContactID door) "ContactSensor" "close" "contact" "close"
                "Failed to assert door status in hubitat") as (a & b & c & H & ?); [auto|].
    exists a, b, c. rewrite <- H. split; [|done].
    unfold hubitat.AssertDoorContactClosed.
    by destruct (bind (hubitat.assertDeviceState _ _ _ _ _ _) _). }
  destruct (Hlog LevelError "Unknown door status") as (a & b & c & H & ?).
  exists a, b, c. by rewrite <- H.
Qed.

(** X8: whatever the controller event, [handleUacEvent] sends nothing to the
    controller and at most one command to the hub. *)
Theorem handleUacEvent_outbound
    (appConfig : config.Config) (h : hubitat.Client) (json : main.Json)
    (evt : uac.WebhookEvent) :
  uac_calls (trace (main.handleUacEvent appConfig h json evt)) = []
  ∧ (length (hub_commands (trace (main.handleUacEvent appConfig h json evt))) ≤ 1)%nat.
Proof.
  destruct (handleUacEvent_trace appConfig h json evt)
    as (pause & calls & logs & -> & Hpause & Hcalls & Hlogs).
  unfold uac_calls, hub_commands. simpl. rewrite !List.filter_app.
  rewrite (filter_logs is_uac_call logs), (filter_logs is_hub_command logs), !app_nil_r;
    try done.
  assert (List.filter is_uac_call pause = [] ∧ List.filter is_hub_command pause = [])
    as [-> ->] by (by destruct Hpause as [-> | ->]).
  simpl. destruct Hcalls as [-> | (dev & cap & cmd & attr & want & ->)]; [simpl; split; [done|lia]|].
  destruct (assertDeviceState_trace h dev cap cmd attr want) as [-> | ->];
    simpl; split; (done || lia).
Qed.

(** X9: a granted unlock by anybody but the middleware, at a configured
    door, pauses 200 ms and then makes the one switch assertion: the trace is
    the first log line, the pause, the requests of [AssertDoorSwitchOn] on the
    door's switch device, and an error line exactly when that assertion
    fails. *)
Theorem handleUacEvent_unlock_asserts_switch
    (appConfig : config.Config) (h : hubitat.Client) (json : main.Json)
    (evt : uac.WebhookEvent) (payload : main.UnlockPayload) (door : config.Door) :
  uac.Event evt = "access.door.unlock" →
  main.unmarshal_unlock json (uac.EventData evt) = Some payload →
  ¬ (main.unlock_Actor_Type payload = "open-api"
     ∧ main.unlock_Actor_Name payload = "unifi-access-hubitat-middleware") →
  main.unlock_Object_Result payload = "Access Granted" →
  main.getDoorByUacID appConfig (main.unlock_Location_ID payload) = Some door →
  trace (main.handleUacEvent appConfig h json evt)
  = [Log LevelInfo "Received UAC Event"; Sleep 200]
    ++ trace (hubitat.AssertDoorSwitchOn h (config.HubitatSwitchID door))
    ++ match value (hubitat.AssertDoorSwitchOn h (config.HubitatSwitchID door)) with
       | Some _ => [Log LevelError "Failed to assert door switch on in Hubitat"]
       | None => []
       end.
Proof.
  intros Hevt Hjson Hself Hres Hdoor. unfold main.handleUacEvent.
  rewrite Hevt, Hjson. simpl.
  destruct (String.eqb_spec (main.unlock_Actor_Type payload) "open-api") as [Ht|Ht];
    destruct (String.eqb_spec (main.unlock_Actor_Name payload)
                "unifi-access-hubitat-middleware") as [Hn|Hn];
    try (by destruct Hself); simpl; rewrite Hres, Hdoor; simpl;
    by destruct (hubitat.AssertDoorSwitchOn h (config.HubitatSwitchID door)) as [[e|] t].
Qed.

Lemma handleUacEvent_unlock_asserts_switch_witness :
  trace (main.handleUacEvent sample.appConfig (sample.hub "closed" "locked" "on")
           (sample.json (Some (sample.unlock_payload "user" "someone" "Access Granted")) None)
           sample.unlock_event)
  = [Log LevelInfo "Received UAC Event"; Sleep 200; HubGetDeviceInfo "103"].
Proof.
  apply (handleUacEvent_unlock_asserts_switch sample.appConfig
           (sample.hub "closed" "locked" "on") _ sample.unlock_event
           (sample.unlock_payload "user" "someone" "Access Granted") sample.front);
    try reflexivity.
  intros [H _]. discriminate.
Defined.

(** ** Assertions and failed fetches *)

(** X10: an assertion whose fetch of the current state fails changes
    nothing.  When the device info is not obtained, [assertDeviceState]
    returns the fetch error, wrapped, and has sent nothing but, at most, the
    one GET for that device; when the door or its lock rule is not obtained,
    [AssertToggleDoorUnlock], [AssertUnlockDoor] and [AssertLockDoor] return
    the fetch error (the first one wrapped) and have sent nothing but, at
    most, the one GET for that door.  The bound is what holds of every ID:
    for one whose URL [http.NewRequest] refuses, not even the GET goes out. *)
Theorem assertions_fail_closed
    (h : hubitat.Client) (u : uac.Client)
    (deviceID capability command attributeName desiredValue doorID : string)
    (err : uac.error) :
  (no_body (hubitat.devices h deviceID) = true →
   (∃ cause,
      value (hubitat.assertDeviceState h deviceID capability command attributeName desiredValue)
      = Some (hubitat.ErrGetDeviceInfo deviceID cause))
   ∧ trace (hubitat.assertDeviceState h deviceID capability command attributeName desiredValue)
     `sublist_of` [HubGetDeviceInfo deviceID])
  ∧ (uac.api_result (uac.door u doorID) = inl err →
     value (uac.AssertToggleDoorUnlock u doorID) = Some (uac.ErrFetchDoor err)
     ∧ trace (uac.AssertToggleDoorUnlock u doorID) `sublist_of` [UacFetchDoor doorID])
  ∧ (uac.api_result (uac.lock_rule u doorID) = inl err →
     value (uac.AssertUnlockDoor u doorID) = Some err
     ∧ trace (uac.AssertUnlockDoor u doorID) `sublist_of` [UacGetDoorLockRule doorID]
     ∧ value (uac.AssertLockDoor u doorID) = Some err
     ∧ trace (uac.AssertLockDoor u doorID) `sublist_of` [UacGetDoorLockRule doorID]).
Proof.
  split; [|split].
  - unfold hubitat.assertDeviceState, hubitat.GetDeviceInfo.
    destruct (hubitat.devices h deviceID); simpl; try done; eauto.
  - intros Hd. unfold uac.AssertToggleDoorUnlock, uac.FetchDoor. simpl. by rewrite Hd.
  - intros Hr. unfold uac.AssertUnlockDoor, uac.AssertLockDoor, uac.GetDoorLockRule.
    simpl. by rewrite Hr.
Qed.

Lemma assertions_fail_closed_witness :
  let u := {| uac.all_doors := TransportError; uac.door := fun _ => BadStatus 500;
              uac.unlock := fun _ => sample.success tt;
              uac.lock_rule := fun _ => Body {| uac.Code := "CODE_UNAUTHORIZED";
                                                uac.Msg := "denied";
                                                uac.Data := {| uac.RuleType := "" |} |};
              uac.set_lock_rule := fun _ _ => sample.success tt |} in
  trace (hubitat.assertDeviceState sample.hub_down "103" "Switch" "on" "switch" "on")
  `sublist_of` [HubGetDeviceInfo "103"]
  ∧ value (uac.AssertToggleDoorUnlock u "front") = Some (uac.ErrFetchDoor (uac.ErrStatus 500))
  ∧ value (uac.AssertLockDoor u "front") = Some (uac.ErrApi "denied")
  ∧ trace (uac.AssertLockDoor u "front") `sublist_of` [UacGetDoorLockRule "front"].
Proof.
  intros u.
  destruct (assertions_fail_closed sample.hub_down u "103" "Switch" "on" "switch" "on" "front"
              (uac.ErrStatus 500)) as (Hhub & Htoggle & _).
  destruct (assertions_fail_closed sample.hub_down u "103" "Switch" "on" "switch" "on" "front"
              (uac.ErrApi "denied")) as (_ & _ & Hrule).
  destruct (Hhub eq_refl) as [_ Hsub].
  destruct (Htoggle eq_refl) as [Hvalue _].
  destruct (Hrule eq_refl) as (_ & _ & Hlock & Hsublock).
  split; [exact Hsub|]. split; [exact Hvalue|]. split; [exact Hlock | exact Hsublock].
Defined.

(** X11: [assertDeviceState] returns success exactly when the device info was
    fetched, the device has the capability and the command, and either an
    attribute entry already has the desired value or the command was sent
    and accepted. *)
Theorem assertDeviceState_success
    (c : hubitat.Client) (deviceID capability command attributeName desiredValue : string) :
  value (hubitat.assertDeviceState c deviceID capability command attributeName desiredValue)
  = None
  ↔ ∃ info,
      hubitat.devices c deviceID = Body info
      ∧ hubitat.hasCapability info capability = true
      ∧ hubitat.hasCommand info command = true
      ∧ (existsb (hubitat.in_desired_state attributeName desiredValue)
                 (hubitat.Attributes info) = true
         ∨ command_accepted (hubitat.commands c deviceID command "") = true).
Proof.
  unfold hubitat.assertDeviceState, hubitat.GetDeviceInfo, hubitat.sendDeviceCommand.
  split.
  - destruct (hubitat.devices c deviceID) as [| | |info]; simpl; try done.
    destruct (hubitat.hasCapability info capability) eqn:Hcap; simpl; [|done].
    destruct (hubitat.hasCommand info command) eqn:Hcmd; simpl; [|done].
    destruct (existsb _ (hubitat.Attributes info)) eqn:Hattr; simpl.
    + intros _. exists info. auto.
    + destruct (hubitat.commands c deviceID command "") eqn:Hsend; simpl; try done;
        intros _; exists info; rewrite ?Hattr; auto 6.
  - intros (info & -> & Hcap & Hcmd & Hok). simpl. rewrite Hcap, Hcmd. simpl.
    destruct (existsb _ (hubitat.Attributes info)); simpl; [done|].
    destruct Hok as [|Hok]; [done|].
    by destruct (hubitat.commands c deviceID command "").
Qed.

(** ** The record table of the reconciler *)

Section reconciler.
Import config.
Variable u : uac.Client.

Lemma polled_state_state_of (d : Door) : polled_state u d = state_of u (UacID d).
Proof. reflexivity. Qed.

Lemma state_of_cases (id st : string) :
  state_of u id = Some st → st = "locked" ∨ st = "unlocked".
Proof.
  unfold state_of. destruct (uac.api_result _) as [e|rule]; [done|].
  apply currDoorLockRuleState_cases.
Qed.

(** The table after the loop body is the table with the door's observation
    written, whatever the hub answers. *)
Lemma poll_door_value (h : hubitat.Client) (d : Door) (s : gmap string string) :
  value (main.poll_door u h d s) = observe u s d.
Proof.
  unfold observe. destruct (HubitatLockID d) as [l|] eqn:Hl.
  - rewrite <- polled_state_state_of.
    destruct (polled_state u d) as [st|] eqn:Hp.
    + destruct (decide (main.prev_state s (UacID d) = st)) as [Hs|Hs].
      * rewrite (poll_door_unchanged u h d l st s Hl Hp Hs). simpl.
        symmetry. apply insert_id. unfold main.prev_state in Hs.
        destruct (s !! UacID d) as [x|]; simpl in Hs; [by subst|].
        rewrite polled_state_state_of in Hp.
        destruct (state_of_cases _ _ Hp); subst; discriminate.
      * by destruct (poll_door_changed u h d l st s Hl Hp Hs) as (-> & _).
    + by destruct (poll_door_unpolled u h d s Hp) as [-> _].
  - by rewrite poll_door_no_lock.
Qed.

Lemma poll_doors_value (h : hubitat.Client) (ds : list Door) (s : gmap string string) :
  value (main.poll_doors u h ds s) = foldl (observe u) s ds.
Proof.
  revert s. induction ds as [|d ds IH]; intros s; [done|].
  simpl. by rewrite value_bind, IH, poll_door_value.
Qed.

(** The trace of the loop body: at most one poll, the requests of at most
    one lock assertion, made only when the observation differs from the
    record, and at most one log line. *)
Lemma poll_door_trace (h : hubitat.Client) (d : Door) (s : gmap string string) :
  ∃ polls calls logs : list Call,
    trace (main.poll_door u h d s) = polls ++ calls ++ logs
    ∧ (polls = [] ∨ (polls = [UacGetDoorLockRule (UacID d)] ∧ HubitatLockID d ≠ None))
    ∧ (calls = []
       ∨ ∃ l st, HubitatLockID d = Some l ∧ state_of u (UacID d) = Some st
                 ∧ main.prev_state s (UacID d) ≠ st
                 ∧ calls = trace (lock_assertion h l st))
    ∧ Forall (fun c => ∃ l msg, c = Log l msg) logs.
Proof.
  unfold main.poll_door, uac.GetDoorLockRule.
  destruct (HubitatLockID d) as [l|] eqn:Hl.
  2:{ exists [], [], []. auto. }
  simpl. unfold state_of.
  destruct (uac.api_result (uac.lock_rule u (UacID d))) as [e|rule]; simpl.
  { exists [UacGetDoorLockRule (UacID d)], [], [Log LevelError "Failed to get door lock rule"].
    repeat split; auto. repeat constructor. eauto. }
  destruct (main.currDoorLockRuleState (uac.RuleType rule)) as [st|] eqn:Hst; simpl.
  2:{ exists [UacGetDoorLockRule (UacID d)], [], [Log LevelWarn "Unknown door lock rule type"].
      repeat split; auto. repeat constructor. eauto. }
  destruct (String.eqb_spec st (main.prev_state s (UacID d))) as [Heq|Hne]; simpl.
  { exists [UacGetDoorLockRule (UacID d)], [], []. repeat split; auto. }
  apply not_eq_sym in Hne. unfold lock_assertion.
  destruct (currDoorLockRuleState_cases _ _ Hst) as [-> | ->]; simpl.
  - destruct (hubitat.AssertDoorLockLocked h l) as [[e|] t] eqn:Ha; simpl.
    + exists [UacGetDoorLockRule (UacID d)], t, [Log LevelError "Failed to assert door lock locked"].
      split; [by rewrite app_nil_r|]. split; [by right|].
      split; [right; exists l, "locked"; by rewrite Ha|]. repeat constructor. eauto.
    + exists [UacGetDoorLockRule (UacID d)], t, [].
      split; [by rewrite !app_nil_r|]. split; [by right|].
      split; [right; exists l, "locked"; by rewrite Ha | done].
  - destruct (hubitat.AssertDoorLockUnlocked h l) as [[e|] t] eqn:Ha; simpl.
    + exists [UacGetDoorLockRule (UacID d)], t,
        [Log LevelError "Failed to assert door lock unlocked"].
      split; [by rewrite app_nil_r|]. split; [by right|].
      split; [right; exists l, "unlocked"; by rewrite Ha|]. repeat constructor. eauto.
    + exists [UacGetDoorLockRule (UacID d)], t, [].
      split; [by rewrite !app_nil_r|]. split; [by right|].
      split; [right; exists l, "unlocked"; by rewrite Ha | done].
Qed.

End reconciler.

Section record_table.
Import config.
Variable appConfig : Config.

(** Every record is "locked" or "unlocked" and belongs to a configured door
    with a lock device. *)
Let sound (s : gmap string string) : Prop :=
  ∀ id v, s !! id = Some v →
    (v = "locked" ∨ v = "unlocked")
    ∧ ∃ d, d ∈ Doors appConfig ∧ UacID d = id ∧ HubitatLockID d ≠ None.

Lemma observe_sound (u : uac.Client) (s : gmap string string) (d : Door) :
  d ∈ Doors appConfig → sound s → sound (observe u s d).
Proof.
  intros Hin Hs. unfold observe.
  destruct (HubitatLockID d) as [l|] eqn:Hl; [|done].
  destruct (state_of u (UacID d)) as [st|] eqn:Hst; [|done].
  intros id v. destruct (decide (UacID d = id)) as [<-|Hne].
  - rewrite lookup_insert_eq. intros [= <-]. split; [by apply (state_of_cases u (UacID d))|].
    exists d. by rewrite Hl.
  - rewrite lookup_insert_ne by done. apply Hs.
Qed.

Lemma tick_sound (u : uac.Client) (h : hubitat.Client) (s : gmap string string) :
  sound s → sound (value (main.tick appConfig u h s)).
Proof.
  unfold main.tick. rewrite poll_doors_value.
  assert (Hsub : ∀ d, d ∈ Doors appConfig → d ∈ Doors appConfig) by done.
  revert s Hsub. generalize (Doors appConfig) at 1 3.
  intros ds. induction ds as [|d ds IH]; intros s Hsub Hs; [done|].
  simpl. apply IH.
  - intros x Hx. apply Hsub. by apply list_elem_of_further.
  - apply observe_sound; [|done]. apply Hsub, list_elem_of_here.
Qed.

Lemma poll_loop_sound (ticks : list main.World) (s : gmap string string) :
  sound s → sound (value (main.poll_loop appConfig ticks s)).
Proof.
  revert s. induction ticks as [|w ticks IH]; intros s Hs; [done|].
  simpl. rewrite value_bind. by apply IH, tick_sound.
Qed.

Lemma pollUacStates_sound (startup : main.World) (ticks : list main.World) :
  sound (value (main.pollUacStates appConfig startup ticks)).
Proof.
  unfold main.pollUacStates. rewrite value_bind.
  destruct (value (main.snapshot _ _ _)).
  - apply poll_loop_sound. intros id v. by rewrite lookup_empty.
  - intros id v. simpl. by rewrite lookup_empty.
Qed.

End record_table.

(** X12: whatever the two remote systems answer and however many ticks go
    by, every entry of [doorLockRuleStates] is "locked" or "unlocked" and is
    filed under the controller ID of a configured door that has a lock
    device. *)
Theorem pollUacStates_records
    (appConfig : config.Config) (startup : main.World) (ticks : list main.World)
    (id v : string) :
  value (main.pollUacStates appConfig startup ticks) !! id = Some v →
  (v = "locked" ∨ v = "unlocked")
  ∧ ∃ d, d ∈ config.Doors appConfig ∧ config.UacID d = id ∧ config.HubitatLockID d ≠ None.
Proof. apply pollUacStates_sound. Qed.

Lemma pollUacStates_records_witness :
  let w := {| main.world_uac := sample.controller [] "lock" sample.front_kept_unlocked;
              main.world_hub := sample.hub_down |} in
  value (main.pollUacStates sample.appConfig w [w; w]) !! "front" = Some "unlocked"
  ∧ ∃ d, d ∈ config.Doors sample.appConfig ∧ config.UacID d = "front"
         ∧ config.HubitatLockID d ≠ None.
Proof.
  intros w. split; [by vm_compute|].
  by destruct (pollUacStates_records sample.appConfig w [w; w] "front" "unlocked") as [_ H];
    [vm_compute|].
Defined.

Section settling.
Import config.
Variable u : uac.Client.

(** The doors of [ds] whose observation is already in the table. *)
Let settled (ds : list Door) (s : gmap string string) : Prop :=
  ∀ d st, d ∈ ds → HubitatLockID d ≠ None → state_of u (UacID d) = Some st →
          s !! UacID d = Some st.

Lemma observe_keeps (s : gmap string string) (d : Door) (id st : string) :
  state_of u id = Some st → s !! id = Some st → observe u s d !! id = Some st.
Proof.
  intros Hst Hs. unfold observe.
  destruct (HubitatLockID d); [|done].
  destruct (state_of u (UacID d)) as [st'|] eqn:Hd; [|done].
  destruct (decide (UacID d = id)) as [Heq|Hne].
  - rewrite Heq in *. rewrite lookup_insert_eq. congruence.
  - by rewrite lookup_insert_ne.
Qed.

Lemma foldl_observe_settles (ds pre : list Door) (s : gmap string string) :
  settled pre s → settled (pre ++ ds) (foldl (observe u) s ds).
Proof.
  revert pre s. induction ds as [|d ds IH]; intros pre s Hpre.
  - by rewrite app_nil_r.
  - simpl. replace (pre ++ d :: ds) with ((pre ++ [d]) ++ ds) by by rewrite <- app_assoc.
    apply IH. intros x st Hx Hlock Hst.
    apply elem_of_app in Hx as [Hx|Hx%list_elem_of_singleton].
    + apply observe_keeps; [done|]. by apply (Hpre x).
    + subst x. unfold observe. destruct (HubitatLockID d); [|done].
      rewrite Hst. apply lookup_insert_eq.
Qed.

Lemma poll_doors_settled (h : hubitat.Client) (ds : list Door) (s : gmap string string) :
  settled ds s →
  value (main.poll_doors u h ds s) = s ∧ hub_calls (trace (main.poll_doors u h ds s)) = [].
Proof.
  induction ds as [|d ds IH]; intros Hs; [done|].
  assert (Hd : value (main.poll_door u h d s) = s
               ∧ hub_calls (trace (main.poll_door u h d s)) = []).
  { split.
    - rewrite poll_door_value. unfold observe.
      destruct (HubitatLockID d) eqn:Hl; [|done].
      destruct (state_of u (UacID d)) as [st|] eqn:Hst; [|done].
      apply insert_id, (Hs d); [apply list_elem_of_here | by rewrite Hl | done].
    - destruct (poll_door_trace u h d s) as (polls & calls & logs & -> & Hpolls & Hcalls & Hlogs).
      destruct Hcalls as [-> | (l & st & Hl & Hst & Hprev & _)].
      + unfold hub_calls. rewrite !List.filter_app.
        rewrite (filter_logs is_hub_call logs) by done.
        by destruct Hpolls as [-> | [-> _]].
      + destruct Hprev. unfold main.prev_state.
        rewrite (Hs d st); [done | apply list_elem_of_here | by rewrite Hl | done]. }
  destruct Hd as [Hv Ht]. simpl. rewrite value_bind, trace_bind, Hv.
  destruct IH as [IHv IHt]; [intros x st Hx; apply Hs; by apply list_elem_of_further|].
  split; [done|]. unfold hub_calls in *. by rewrite List.filter_app, Ht, IHt.
Qed.

Lemma tick_settles (appConfig : Config) (h h' : hubitat.Client) (s : gmap string string) :
  hub_calls (trace (main.tick appConfig u h' (value (main.tick appConfig u h s)))) = []
  ∧ value (main.tick appConfig u h' (value (main.tick appConfig u h s)))
    = value (main.tick appConfig u h s).
Proof.
  unfold main.tick.
  destruct (poll_doors_settled h' (Doors appConfig) (value (main.poll_doors u h (Doors appConfig) s)))
    as [Hv Ht]; [|done].
  rewrite poll_doors_value. apply (foldl_observe_settles (Doors appConfig) [] s).
  intros d st Hd. by apply elem_of_nil in Hd.
Qed.

End settling.

(** X13: after one tick, a second tick against a controller that answers
    the same sends nothing to the hub and leaves the record table as it is,
    whatever the hub answered to the first. *)
Theorem tick_twice_is_quiet
    (appConfig : config.Config) (u : uac.Client) (h h' : hubitat.Client)
    (states : gmap string string) :
  hub_calls (trace (main.tick appConfig u h' (value (main.tick appConfig u h states)))) = []
  ∧ value (main.tick appConfig u h' (value (main.tick appConfig u h states)))
    = value (main.tick appConfig u h states).
Proof. apply tick_settles. Qed.

Section reconciler_calls.
Import config.
Variable appConfig : Config.

Lemma lock_assertion_calls (h : hubitat.Client) (d : Door) (l st : string) :
  d ∈ Doors appConfig → HubitatLockID d = Some l →
  Forall (reconciler_call (Doors appConfig)) (trace (lock_assertion h l st)).
Proof.
  intros Hin Hl.
  assert (Hget : reconciler_call (Doors appConfig) (HubGetDeviceInfo l)) by (simpl; eauto).
  assert (Hsend : ∀ cmd, cmd = "lock" ∨ cmd = "unlock" →
            reconciler_call (Doors appConfig) (HubSendDeviceCommand l cmd "")).
  { intros cmd Hcmd. simpl. eauto 6. }
  unfold lock_assertion. destruct (String.eqb st "locked").
  - unfold hubitat.AssertDoorLockLocked.
    destruct (assertDeviceState_trace h l "Lock" "lock" "lock" "locked") as [-> | ->];
      auto using Forall_cons, Forall_nil.
  - unfold hubitat.AssertDoorLockUnlocked.
    destruct (assertDeviceState_trace h l "Lock" "unlock" "lock" "unlocked") as [-> | ->];
      auto using Forall_cons, Forall_nil.
Qed.

Lemma poll_door_calls (u : uac.Client) (h : hubitat.Client) (d : Door)
    (s : gmap string string) :
  d ∈ Doors appConfig →
  Forall (reconciler_call (Doors appConfig)) (trace (main.poll_door u h d s)).
Proof.
  intros Hin.
  destruct (poll_door_trace u h d s) as (polls & calls & logs & -> & Hpolls & Hcalls & Hlogs).
  rewrite !Forall_app. split; [|split].
  - destruct Hpolls as [-> | [-> Hl]]; [done|].
    constructor; [simpl; eauto | done].
  - destruct Hcalls as [-> | (l & st & Hl & _ & _ & ->)]; [done|].
    by apply (lock_assertion_calls h d).
  - eapply Forall_impl; [exact Hlogs|]. by intros c (l & msg & ->).
Qed.

Lemma poll_doors_calls (u : uac.Client) (h : hubitat.Client) (ds : list Door)
    (s : gmap string string) :
  (∀ d, d ∈ ds → d ∈ Doors appConfig) →
  Forall (reconciler_call (Doors appConfig)) (trace (main.poll_doors u h ds s)).
Proof.
  revert s. induction ds as [|d ds IH]; intros s Hsub; [by constructor|].
  simpl. rewrite trace_bind, Forall_app. split.
  - apply poll_door_calls, Hsub, list_elem_of_here.
  - apply IH. intros x Hx. by apply Hsub, list_elem_of_further.
Qed.

Lemma tick_calls (u : uac.Client) (h : hubitat.Client) (s : gmap string string) :
  Forall (reconciler_call (Doors appConfig)) (trace (main.tick appConfig u h s)).
Proof. by apply poll_doors_calls. Qed.

End reconciler_calls.

(** X14: the drift loop only ever polls the lock rule of configured doors
    that have a lock device, fetches such lock devices and sends them the
    commands lock or unlock; it sends no changing request to the controller
    and touches no contact or switch device. *)
Theorem poll_loop_calls
    (appConfig : config.Config) (ticks : list main.World) (states : gmap string string) :
  Forall (reconciler_call (config.Doors appConfig))
         (trace (main.poll_loop appConfig ticks states)).
Proof.
  revert states. induction ticks as [|w ticks IH]; intros states; [by constructor|].
  simpl. rewrite trace_bind, Forall_app. split; [apply tick_calls | apply IH].
Qed.

(** ** The startup pass *)

Lemma hub_calls_assertDeviceState (h : hubitat.Client) (dev cap cmd attr want : string) :
  hub_calls (trace (hubitat.assertDeviceState h dev cap cmd attr want))
  = trace (hubitat.assertDeviceState h dev cap cmd attr want).
Proof. by destruct (assertDeviceState_trace h dev cap cmd attr want) as [-> | ->]. Qed.

Lemma hub_calls_position_assertion (h : hubitat.Client) (contactID position : string) :
  hub_calls (position_assertion h contactID position) = position_assertion h contactID position.
Proof.
  unfold position_assertion, hubitat.AssertDoorContactOpened, hubitat.AssertDoorContactClosed.
  destruct (String.eqb position "open"); [apply hub_calls_assertDeviceState|].
  destruct (String.eqb position "close"); [apply hub_calls_assertDeviceState | done].
Qed.

Lemma snapshot_loop_configured
    (appConfig : config.Config) (h : hubitat.Client) (doors : list uac.Door) :
  Forall (fun d => main.getDoorByUacID appConfig (uac.ID d) ≠ None) doors →
  value (main.snapshot_loop appConfig h doors) = true
  ∧ hub_calls (trace (main.snapshot_loop appConfig h doors))
    = flat_map (fun d =>
        match main.getDoorByUacID appConfig (uac.ID d) with
        | Some door => position_assertion h (config.HubitatContactID door)
                         (uac.DoorPositionStatus d)
        | None => []
        end) doors.
Proof.
  induction 1 as [|d doors Hd _ [IHv IHt]]; [done|].
  simpl. destruct (main.getDoorByUacID appConfig (uac.ID d)) as [door|]; [|done].
  rewrite value_bind, trace_bind. split; [done|].
  unfold hub_calls in *. rewrite List.filter_app, IHt. f_equal.
  fold (hub_calls (position_assertion h (config.HubitatContactID door) (uac.DoorPositionStatus d))).
  rewrite <- hub_calls_position_assertion. unfold position_assertion, hub_calls.
  destruct (String.eqb (uac.DoorPositionStatus d) "open").
  { rewrite trace_bind, List.filter_app.
    destruct (value (hubitat.AssertDoorContactOpened h _)); simpl; by rewrite app_nil_r. }
  destruct (String.eqb (uac.DoorPositionStatus d) "close"); [|done].
  rewrite trace_bind, List.filter_app.
  destruct (value (hubitat.AssertDoorContactClosed h _)); simpl; by rewrite app_nil_r.
Qed.

(** X15: when the door list is fetched and every listed door is configured,
    the startup pass reaches the ticker loop, and what it sends to the hub is,
    door by door in the listed order, the contact assertion for the reported
    position: opened for "open", closed for "close", nothing for any other
    position. *)
Theorem snapshot_asserts_every_door
    (appConfig : config.Config) (u : uac.Client) (h : hubitat.Client)
    (doors : list uac.Door) :
  uac.api_result (uac.all_doors u) = inr doors →
  Forall (fun d => main.getDoorByUacID appConfig (uac.ID d) ≠ None) doors →
  value (main.snapshot appConfig u h) = true
  ∧ hub_calls (trace (main.snapshot appConfig u h))
    = flat_map (fun d =>
        match main.getDoorByUacID appConfig (uac.ID d) with
        | Some door => position_assertion h (config.HubitatContactID door)
                         (uac.DoorPositionStatus d)
        | None => []
        end) doors.
Proof.
  intros Hfetch Hall. unfold main.snapshot, uac.FetchAllDoors.
  rewrite value_bind, trace_bind. simpl. rewrite Hfetch.
  destruct (snapshot_loop_configured appConfig h doors Hall) as [Hv Ht].
  split; [done|]. exact Ht.
Qed.

Lemma snapshot_asserts_every_door_witness :
  let doors := [sample.controller_door "back" "close" "lock";
                sample.controller_door "front" "open" "lock";
                sample.controller_door "back" "none" "lock"] in
  value (main.snapshot sample.appConfig (sample.controller doors "lock" (fun _ => ""))
           (sample.hub "open" "locked" "off")) = true
  ∧ hub_calls (trace (main.snapshot sample.appConfig
                        (sample.controller doors "lock" (fun _ => ""))
                        (sample.hub "open" "locked" "off")))
    = [HubGetDeviceInfo "201"; HubSendDeviceCommand "201" "close" ""; HubGetDeviceInfo "101"].
Proof.
  intros doors.
  apply (snapshot_asserts_every_door sample.appConfig
           (sample.controller doors "lock" (fun _ => "")) (sample.hub "open" "locked" "off") doors);
    [reflexivity|].
  repeat constructor; discriminate.
Defined.

(** When the door list cannot be fetched, the startup pass sends nothing to
    the hub and the ticker loop is entered all the same. *)
Lemma snapshot_fetch_failure
    (appConfig : config.Config) (u : uac.Client) (h : hubitat.Client) (err : uac.error) :
  uac.api_result (uac.all_doors u) = inl err →
  main.snapshot appConfig u h
  = (true, [UacFetchAllDoors; Log LevelError "Failed to fetch all doors"]).
Proof.
  intros Hfetch. unfold main.snapshot, uac.FetchAllDoors. simpl. by rewrite Hfetch.
Qed.

(** ** Webhook registration *)

Lemma register_loop_mutations (c : uac.WebhookApi) (new : uac.Webhook)
    (webhooks : list uac.Webhook) :
  let t := (main.register_loop c new webhooks).2 in
  (length (webhook_mutations t) ≤ 1)%nat
  ∧ Forall (fun call => ∀ id, call ≠ uac.DeleteWebhookEndpointCall id) t
  ∧ Forall (fun call => call ≠ uac.GetWebhookEndpoints) t.
Proof.
  induction webhooks as [|w webhooks IH]; simpl.
  - unfold uac.AddWebhookEndpoint.
    destruct (uac.api_result (uac.added c new)); simpl;
      (split; [lia|]; split; repeat constructor; done).
  - destruct (String.eqb (uac.WebhookName w) (uac.WebhookName new)); [|exact IH].
    destruct (uac.WebhookID w) as [id|]; simpl; [|split; [lia|split; constructor]].
    destruct (main.fields_differ w new); simpl.
    + unfold uac.UpdateWebhookEndpoint.
      destruct (uac.api_result (uac.updated c id new)); simpl;
        (split; [lia|]; split; repeat constructor; done).
    + split; [lia|]. split; repeat constructor; done.
Qed.

(** X16: whatever the controller answers, [assertUacWebhookExists] starts
    with the one fetch of the registered endpoints, makes at most one
    changing request after it, and never deletes a registration. *)
Theorem assertUacWebhookExists_requests (server : config.Server) (c : uac.WebhookApi) :
  ∃ t, (main.assertUacWebhookExists server c).2 = uac.GetWebhookEndpoints :: t
       ∧ (length (webhook_mutations t) ≤ 1)%nat
       ∧ Forall (fun call => ∀ id, call ≠ uac.DeleteWebhookEndpointCall id) t
       ∧ Forall (fun call => call ≠ uac.GetWebhookEndpoints) t.
Proof.
  unfold main.assertUacWebhookExists, uac.FetchWebhookEndpoints.
  destruct (uac.api_result (uac.endpoints c)) as [e|webhooks].
  - exists []. simpl. split; [done|]. split; [lia|]. split; constructor.
  - pose proof (register_loop_mutations c (main.newWebhook server) webhooks) as H.
    destruct (main.register_loop c (main.newWebhook server) webhooks) as [r t].
    exists t. by simpl in *.
Qed.




(** X18: an existing registration counts as matching exactly when its
    endpoint is the configured one, its events are a permutation of the two
    subscribed event kinds, and its headers are the one Authorization
    header; its ID, name and secret play no part. *)
Theorem fields_differ_spec (server : config.Server) (w : uac.Webhook) :
  main.fields_differ w (main.newWebhook server) = false
  ↔ uac.Endpoint w = (config.BaseURL server ++ "/webhook/uac")%string
    ∧ uac.Events w ≡ₚ ["access.device.dps_status"; "access.door.unlock"]
    ∧ uac.Headers w = <["Authorization" := config.AuthToken server]> ∅.
Proof.
  unfold main.fields_differ. simpl.
  rewrite !orb_false_iff, !negb_false_iff, String.eqb_eq.
  rewrite StringSlicesEqual_Permutation, StringMapsEqual_eq_iff. tauto.
Qed.

(** ** The webhook handlers *)

(** X19: the controller-side handler dispatches an event exactly when it
    answers 200, and only for a request that carries the shared token, whose
    body was read, whose signature verifies under the handler's secret, and
    whose body decodes to that event. *)
Theorem uac_ServeHTTP_dispatch
    (json : uac.EventJson) (h : uac.WebhookHandler) (r : uac.Request) (event : uac.WebhookEvent) :
  (uac.status (uac.ServeHTTP json h r) = 200%Z ↔ uac.dispatched (uac.ServeHTTP json h r) ≠ None)
  ∧ (uac.dispatched (uac.ServeHTTP json h r) = Some event →
     uac.header_Authorization r = uac.authToken h
     ∧ ∃ body raw,
         uac.request_body r = Some body
         ∧ validatePayload body (uac.header_Signature r) (uac.secret h) = None
         ∧ uac.json_raw json body = Some raw
         ∧ uac.json_event json raw = Some event).
Proof.
  unfold uac.ServeHTTP, uac.constructEvent.
  destruct (String.eqb_spec (uac.header_Authorization r) (uac.authToken h)) as [Htok|Htok];
    simpl; [|done].
  destruct (uac.request_body r) as [body|]; simpl; [|done].
  destruct (validatePayload body (uac.header_Signature r) (uac.secret h)) eqn:Hsig;
    simpl; [done|].
  destruct (uac.json_raw json body) as [raw|] eqn:Hraw; simpl; [|done].
  destruct (uac.json_event json raw) as [e|] eqn:He; simpl; [|done].
  split; [done|]. intros [= <-]. split; [done|]. exists body, raw. done.
Qed.

Lemma uac_ServeHTTP_dispatch_witness :
  let body := bytes_of_string "{}" in
  let r := {| uac.header_Signature := signed_header "s3cr3t" "1700000000" body;
              uac.header_Authorization := "token";
              uac.request_body := Some body |} in
  let h := {| uac.secret := "s3cr3t"; uac.authToken := "token" |} in
  uac.dispatched (uac.ServeHTTP sample.event_json h r) = Some sample.unlock_event
  ∧ validatePayload body (uac.header_Signature r) (uac.secret h) = None.
Proof.
  intros body r h.
  assert (Hd : uac.dispatched (uac.ServeHTTP sample.event_json h r) = Some sample.unlock_event)
    by by vm_compute.
  split; [exact Hd|].
  destruct (uac_ServeHTTP_dispatch sample.event_json h r sample.unlock_event) as [_ H].
  destruct (H Hd) as (_ & b & raw & Hb & Hsig & _).
  injection Hb as <-. exact Hsig.
Defined.

(** X20: a request that carries the shared token and the header
    [t=T,v1=hex(HMAC-SHA256(secret, T + "." + body))], for an [int64]
    timestamp printed as [%d] prints it, is answered 200 with the decoded
    event dispatched, provided the body is JSON that decodes to an event. *)
Theorem uac_ServeHTTP_accepts_signed
    (json : uac.EventJson) (h : uac.WebhookHandler) (ts : Z)
    (body raw : list byte) (event : uac.WebhookEvent) :
  (- 2 ^ 63 ≤ ts < 2 ^ 63)%Z →
  uac.json_raw json body = Some raw →
  uac.json_event json raw = Some event →
  uac.ServeHTTP json h
    {| uac.header_Signature := signed_header (uac.secret h) (formatInt ts) body;
       uac.header_Authorization := uac.authToken h;
       uac.request_body := Some body |}
  = {| uac.status := 200; uac.body := uac.OK; uac.dispatched := Some event |}.
Proof.
  intros Hts Hraw Hevent. unfold uac.ServeHTTP, uac.constructEvent. simpl.
  rewrite String.eqb_refl. simpl.
  destruct (validatePayload_header_of ts
              (hex_EncodeToString (digest_of (uac.secret h) (formatInt ts) body)) body
              (uac.secret h) Hts (hex_EncodeToString_not_separator _)) as [Hok _].
  unfold signed_header. rewrite Hok by apply hex_DecodeString_EncodeToString.
  by rewrite Hraw, Hevent.
Qed.

Lemma uac_ServeHTTP_accepts_signed_witness :
  uac.ServeHTTP sample.event_json {| uac.secret := "s3cr3t"; uac.authToken := "token" |}
    {| uac.header_Signature :=
         signed_header "s3cr3t" (formatInt 1700000000) (bytes_of_string "{}");
       uac.header_Authorization := "token";
       uac.request_body := Some (bytes_of_string "{}") |}
  = {| uac.status := 200; uac.body := uac.OK; uac.dispatched := Some sample.unlock_event |}.
Proof.
  apply (uac_ServeHTTP_accepts_signed sample.event_json
           {| uac.secret := "s3cr3t"; uac.authToken := "token" |} 1700000000
           (bytes_of_string "{}") (bytes_of_string "{}") sample.unlock_event);
    [lia | reflexivity | reflexivity].
Defined.

(** X21: with the shared token and a readable body, the controller-side
    handler answers 401 both when the signature does not verify and when the
    signature verifies but the body is not JSON; it answers 400 only when the
    body is JSON that does not decode to an event.  Without the token it
    answers 403 whatever the signature. *)
Theorem uac_ServeHTTP_failures
    (json : uac.EventJson) (h : uac.WebhookHandler) (r : uac.Request) (body : list byte) :
  (uac.header_Authorization r ≠ uac.authToken h →
   uac.ServeHTTP json h r
   = {| uac.status := 403; uac.body := uac.Forbidden; uac.dispatched := None |})
  ∧ (uac.header_Authorization r = uac.authToken h →
     uac.request_body r = Some body →
     (∀ err, validatePayload body (uac.header_Signature r) (uac.secret h) = Some err →
             uac.ServeHTTP json h r
             = {| uac.status := 401;
                  uac.body := uac.SignatureValidationFailed (uac.SignatureError err);
                  uac.dispatched := None |})
     ∧ (validatePayload body (uac.header_Signature r) (uac.secret h) = None →
        (uac.json_raw json body = None →
         uac.ServeHTTP json h r
         = {| uac.status := 401;
              uac.body := uac.SignatureValidationFailed uac.ParseJSONError;
              uac.dispatched := None |})
        ∧ (∀ raw, uac.json_raw json body = Some raw →
                  uac.json_event json raw = None →
                  uac.ServeHTTP json h r
                  = {| uac.status := 400; uac.body := uac.InvalidEventJSON;
                       uac.dispatched := None |}))).
Proof.
  unfold uac.ServeHTTP, uac.constructEvent. split.
  - intros Hne. apply String.eqb_neq in Hne. by rewrite Hne.
  - intros -> ->. rewrite String.eqb_refl. simpl. split.
    + by intros err ->.
    + intros ->. split; [by intros -> | by intros raw -> ->].
Qed.

Lemma uac_ServeHTTP_failures_witness :
  let h := {| uac.secret := "s3cr3t"; uac.authToken := "token" |} in
  let body := bytes_of_string "{" in
  let not_json := {| uac.json_raw := fun _ => None; uac.json_event := fun _ => None |} in
  uac.ServeHTTP not_json h
    {| uac.header_Signature := signed_header "s3cr3t" "1700000000" body;
       uac.header_Authorization := "token"; uac.request_body := Some body |}
  = {| uac.status := 401; uac.body := uac.SignatureValidationFailed uac.ParseJSONError;
       uac.dispatched := None |}
  ∧ uac.ServeHTTP not_json h
      {| uac.header_Signature := signed_header "s3cr3t" "1700000000" body;
         uac.header_Authorization := "guess"; uac.request_body := Some body |}
    = {| uac.status := 403; uac.body := uac.Forbidden; uac.dispatched := None |}.
Proof.
  intros h body not_json. split.
  - destruct (uac_ServeHTTP_failures not_json h
                {| uac.header_Signature := signed_header "s3cr3t" "1700000000" body;
                   uac.header_Authorization := "token"; uac.request_body := Some body |} body)
      as [_ H].
    destruct (H eq_refl eq_refl) as [_ Hvalid].
    destruct Hvalid as [Hraw _]; [by vm_compute|]. by apply Hraw.
  - destruct (uac_ServeHTTP_failures not_json h
                {| uac.header_Signature := signed_header "s3cr3t" "1700000000" body;
                   uac.header_Authorization := "guess"; uac.request_body := Some body |} body)
      as [H _].
    apply H. discriminate.
Defined.

(** X22: the hub-side handler dispatches an event exactly for a request
    whose [authorization] query parameter is the shared token and whose body
    was read and decodes to that event; it then answers 200, and otherwise
    403 (token) or 400 (body). *)
Theorem hubitat_ServeHTTP_dispatch
    (unmarshal : list byte → option hubitat.WebhookEvent)
    (h : hubitat.WebhookHandler) (r : hubitat.Request) (event : hubitat.WebhookEvent) :
  (hubitat.dispatched (hubitat.ServeHTTP unmarshal h r) = Some event
   ↔ hubitat.query_authorization r = hubitat.authToken h
     ∧ ∃ body, hubitat.request_body r = Some body ∧ unmarshal body = Some event)
  ∧ (hubitat.status (hubitat.ServeHTTP unmarshal h r) = 200%Z
     ↔ hubitat.dispatched (hubitat.ServeHTTP unmarshal h r) ≠ None)
  ∧ (hubitat.status (hubitat.ServeHTTP unmarshal h r) = 403%Z
     ↔ hubitat.query_authorization r ≠ hubitat.authToken h).
Proof.
  unfold hubitat.ServeHTTP.
  destruct (String.eqb_spec (hubitat.query_authorization r) (hubitat.authToken h)) as [Ht|Ht];
    simpl.
  - destruct (hubitat.request_body r) as [body|]; simpl.
    + destruct (unmarshal body) as [e|] eqn:He; simpl.
      * split; [|done]. split; [intros [= <-]; eauto|].
        intros (_ & b & [= <-] & Hb). congruence.
      * split; [|done]. split; [done|]. intros (_ & b & [= <-] & Hb). congruence.
    + split; [|done]. split; [done|]. by intros (_ & b & Hb & _).
  - split; [|done]. split; [done | by intros [? _]].
Qed.

(** ** More on signature headers *)

Lemma strings_Split_nonempty (sep : ascii) (s : string) :
  ∃ h t, strings_Split sep s = h :: t.
Proof.
  induction s as [|c s (h & t & IH)]; simpl; [eauto|].
  destruct (Ascii.eqb c sep); [eauto|]. rewrite IH. eauto.
Qed.

Lemma strings_Split_app_any (sep : ascii) (s1 s2 : string) :
  strings_Split sep (s1 ++ String sep s2)%string
  = strings_Split sep s1 ++ strings_Split sep s2.
Proof.
  induction s1 as [|c s1 IH]; simpl.
  - by rewrite Ascii.eqb_refl.
  - destruct (Ascii.eqb c sep); [by rewrite IH|].
    rewrite IH. by destruct (strings_Split_nonempty sep s1) as (h & t & ->).
Qed.

Lemma parsePairs_skip (before after : list string) (kv : string) (sh : signedHeader) :
  skipped_pair kv = true →
  parsePairs (before ++ kv :: after) sh = parsePairs (before ++ after) sh.
Proof.
  intros Hskip. revert sh. induction before as [|p before IH]; intros sh; simpl.
  - unfold skipped_pair in Hskip.
    destruct (strings_Split "=" kv) as [|k [|v [|x rest]]]; try done.
    apply andb_prop in Hskip as [Ht Hv]. apply negb_true_iff in Ht. rewrite Ht.
    destruct (String.eqb k signingVersion); [|done].
    simpl in Hv. by destruct (hex_DecodeString v).
  - destruct (strings_Split "=" p) as [|k [|v [|x rest]]]; try done.
    destruct (String.eqb k "t").
    + destruct (ParseInt v); [done | apply IH].
    + destruct (String.eqb k signingVersion); [|apply IH].
      destruct (hex_DecodeString v); apply IH.
Qed.

(** X23: a pair with an unrecognized key, or with the known version key and
    a value that is not hexadecimal, is passed over: put between two parts of
    a header, it leaves the result of verification as it is. *)
Theorem validatePayload_ignores_unknown_pair
    (payload : list byte) (secret before after kv : string) :
  skipped_pair kv = true →
  string_forallb (fun c => negb (Ascii.eqb c ",")) kv = true →
  validatePayload payload (before ++ "," ++ kv ++ "," ++ after)%string secret
  = validatePayload payload (before ++ "," ++ after)%string secret.
Proof.
  intros Hskip Hcomma. unfold validatePayload, parseSignatureHeader.
  assert (Hne : ∀ rest, String.eqb (before ++ "," ++ rest)%string "" = false).
  { intros rest. by destruct before. }
  rewrite !Hne.
  change ("," ++ kv ++ "," ++ after)%string with (String "," (kv ++ String "," after)).
  change ("," ++ after)%string with (String "," after).
  rewrite !strings_Split_app_any, (strings_Split_no_sep "," kv Hcomma).
  cbn [app]. by rewrite (parsePairs_skip _ _ kv _ Hskip).
Qed.

Lemma validatePayload_ignores_unknown_pair_witness :
  let payload := bytes_of_string "{}" in
  let digest := hex_EncodeToString (digest_of "secret" "1700000000" payload) in
  validatePayload payload ("t=1700000000" ++ "," ++ "v0=00ff" ++ "," ++ "v1=" ++ digest)%string
    "secret" = None
  ∧ validatePayload payload ("t=1700000000" ++ "," ++ "v1=xyz" ++ "," ++ "v1=" ++ digest)%string
      "secret" = None.
Proof.
  intros payload digest. split.
  - rewrite (validatePayload_ignores_unknown_pair payload "secret" "t=1700000000"
               ("v1=" ++ digest)%string "v0=00ff"); by vm_compute.
  - rewrite (validatePayload_ignores_unknown_pair payload "secret" "t=1700000000"
               ("v1=" ++ digest)%string "v1=xyz"); by vm_compute.
Defined.

Lemma parsePairs_origin (pairs : list string) (sh0 sh : signedHeader) :
  parsePairs pairs sh0 = inr sh →
  (signature sh = signature sh0
   ∨ ∃ kv v, In kv pairs ∧ strings_Split "=" kv = [signingVersion; v]
             ∧ hex_DecodeString v = Some (signature sh))
  ∧ (timestamp sh = timestamp sh0
     ∨ ∃ kv v, In kv pairs ∧ strings_Split "=" kv = ["t"; v]
               ∧ ParseInt v = inr (timestamp sh)).
Proof.
  revert sh0. induction pairs as [|p pairs IH]; intros sh0; simpl.
  - intros [= <-]. auto.
  - destruct (strings_Split "=" p) as [|k [|v [|x rest]]] eqn:Hsplit; try done.
    assert (Hlift : ∀ sh1,
              parsePairs pairs sh1 = inr sh →
              (signature sh = signature sh1
               ∨ ∃ kv v, In kv (p :: pairs) ∧ strings_Split "=" kv = [signingVersion; v]
                         ∧ hex_DecodeString v = Some (signature sh))
              ∧ (timestamp sh = timestamp sh1
                 ∨ ∃ kv v, In kv (p :: pairs) ∧ strings_Split "=" kv = ["t"; v]
                           ∧ ParseInt v = inr (timestamp sh))).
    { intros sh1 H. destruct (IH sh1 H) as [Hs Ht]. split.
      - destruct Hs as [Hs | (kv & w & Hin & Hkv & Hw)]; [by left|].
        right. exists kv, w. split; [by right | done].
      - destruct Ht as [Ht | (kv & w & Hin & Hkv & Hw)]; [by left|].
        right. exists kv, w. split; [by right | done]. }
    destruct (String.eqb_spec k "t") as [->|Hk].
    + destruct (ParseInt v) as [e|ts] eqn:Hts; [done|]. intros H.
      destruct (Hlift _ H) as [Hs Ht]. split; [exact Hs|].
      destruct Ht as [Ht|Ht]; [|by right]. simpl in Ht.
      right. exists p, v. split; [by left|]. by rewrite Ht.
    + destruct (String.eqb_spec k signingVersion) as [->|Hv]; [|apply Hlift].
      destruct (hex_DecodeString v) as [sig|] eqn:Hsig; [|apply Hlift]. intros H.
      destruct (Hlift _ H) as [Hs Ht]. split; [|exact Ht].
      destruct Hs as [Hs|Hs]; [|by right]. simpl in Hs.
      right. exists p, v. split; [by left|]. by rewrite Hs.
Qed.

(** X24: verification succeeds only on a header one of whose pairs has the
    known version key and a value that decodes to the HMAC-SHA256, under the
    secret, of a decimal timestamp, a dot and the payload, the timestamp being
    the value of one of the header's [t] pairs or, when there is none that
    counts, the Unix time of the zero [time.Time]. *)
Theorem validatePayload_sound (payload : list byte) (sigHeader secret : string) :
  validatePayload payload sigHeader secret = None →
  ∃ kv v ts,
    In kv (strings_Split "," sigHeader)
    ∧ strings_Split "=" kv = [signingVersion; v]
    ∧ hex_DecodeString v = Some (digest_of secret (formatInt ts) payload)
    ∧ (ts = (-62135596800)%Z
       ∨ ∃ kt vt, In kt (strings_Split "," sigHeader)
                  ∧ strings_Split "=" kt = ["t"; vt] ∧ ParseInt vt = inr ts).
Proof.
  unfold validatePayload, parseSignatureHeader.
  destruct (String.eqb sigHeader ""); [done|].
  destruct (parsePairs (strings_Split "," sigHeader) zero_signedHeader) as [e|sh] eqn:Hparse;
    [done|].
  destruct (length (signature sh) =? 0)%nat eqn:Hlen; [done|].
  destruct (hmac_Equal _ _) eqn:Heq; [|done]. intros _.
  apply hmac_Equal_eq in Heq. rewrite computeSignature_digest_of in Heq.
  destruct (parsePairs_origin _ _ _ Hparse) as [Hs Ht].
  destruct Hs as [Hs | (kv & v & Hin & Hkv & Hv)].
  { simpl in Hs. rewrite Hs in Hlen. discriminate. }
  exists kv, v, (timestamp sh). rewrite Heq. repeat split; done.
Qed.

Lemma validatePayload_sound_witness :
  let payload := bytes_of_string "{}" in
  ∃ kv v ts,
    In kv (strings_Split "," (signed_header "secret" "1700000000" payload))
    ∧ strings_Split "=" kv = [signingVersion; v]
    ∧ hex_DecodeString v = Some (digest_of "secret" (formatInt ts) payload)
    ∧ (ts = (-62135596800)%Z
       ∨ ∃ kt vt, In kt (strings_Split "," (signed_header "secret" "1700000000" payload))
                  ∧ strings_Split "=" kt = ["t"; vt] ∧ ParseInt vt = inr ts).
Proof.
  intros payload.
  apply (validatePayload_sound payload (signed_header "secret" "1700000000" payload) "secret").
  by vm_compute.
Defined.

(** X25: a header without any [t] pair is not refused: it is verified
    against the Unix time of the zero [time.Time], -62135596800, so the header
    [v1=hex(HMAC-SHA256(S, "-62135596800." + P))] verifies [P]. *)
Theorem validatePayload_without_timestamp (payload : list byte) (secret : string) :
  validatePayload payload
    ("v1=" ++ hex_EncodeToString (digest_of secret "-62135596800" payload))%string secret
  = None.
Proof.
  unfold validatePayload, parseSignatureHeader.
  set (X := hex_EncodeToString (digest_of secret "-62135596800" payload)).
  assert (HX : string_forallb not_separator X = true)
    by apply hex_EncodeToString_not_separator.
  change (String.eqb ("v1=" ++ X) "")%string with false. cbn iota.
  change ("v1=" ++ X)%string with (String "v" (String "1" (String "=" X))) at 1.
  cbn [strings_Split]. change (Ascii.eqb "v" ",") with false.
  change (Ascii.eqb "1" ",") with false. change (Ascii.eqb "=" ",") with false. cbn iota.
  rewrite (strings_Split_no_sep "," X) by by apply not_separator_comma.
  cbn [parsePairs].
  change (String "v" (String "1" (String "=" X))) with ("v1=" ++ X)%string.
  rewrite strings_Split_v1 by done.
  change (String.eqb "v1" "t") with false. change (String.eqb "v1" signingVersion) with true.
  cbn iota. unfold X at 1. rewrite hex_DecodeString_EncodeToString.
  destruct (digest_of_nonempty secret "-62135596800" payload) as (b & sig & Hd).
  cbn [parsePairs signature timestamp zero_signedHeader]. rewrite Hd. cbn [length Nat.eqb].
  cbn [signature timestamp]. rewrite computeSignature_digest_of.
  change (formatInt (-62135596800)) with "-62135596800". rewrite Hd.
  by rewrite (proj2 (hmac_Equal_eq _ _) eq_refl).
Qed.
